(** * Coms-Writer: the template-to-hyperlinked-document pipeline

    A shallow embedding of [comms_automation.py]: the Python string
    primitives the script relies on, the runs python-docx and lxml
    build or refuse, the document builder [create_hyperlinked_docx],
    the AI-response splice of the generate handler, the handler's
    validation chain and the link-management actions of the UI. *)

From Stdlib Require Import List NArith ZArith Lia Bool.
From Stdlib Require Ascii String.
Import ListNotations.
Import String.StringSyntax.
Delimit Scope string_scope with string.

Set Implicit Arguments.

(** ** Python values *)

(** A Python [str] is a sequence of Unicode code points. *)
Definition char := N.
Definition str := list char.

(** ASCII literals of the script, as code points. *)
Definition lit (s : String.string) : str :=
  map Ascii.N_of_ascii (String.list_ascii_of_string s).
Arguments lit s%_string.

Definition nl : char := 10%N.

(** Exceptions that the modelled fragment can raise. *)
Inductive exn := ValueError | IndexError.

Inductive result (A : Type) : Type :=
| Ok (a : A)
| Raise (e : exn).
Arguments Ok {A} a.
Arguments Raise {A} e.

Definition bind {A B : Type} (m : result A) (k : A -> result B) : result B :=
  match m with
  | Ok a => k a
  | Raise e => Raise e
  end.

Notation "x <- m ;; k" := (bind m (fun x => k))
  (at level 61, m at next level, right associativity).

(** ** The [str] and [list] built-ins used by the script *)
Module Py.

Fixpoint eqb (a b : str) : bool :=
  match a, b with
  | [], [] => true
  | x :: a', y :: b' => N.eqb x y && eqb a' b'
  | _, _ => false
  end.

(** [s.startswith(p)] *)
Fixpoint startswith (p s : str) : bool :=
  match p, s with
  | [], _ => true
  | _ :: _, [] => false
  | x :: p', y :: s' => N.eqb x y && startswith p' s'
  end.

(** Lowest index at which [p] occurs in [s], if any. *)
Fixpoint index (p s : str) : option nat :=
  if startswith p s then Some 0
  else match s with
       | [] => None
       | _ :: s' => option_map S (index p s')
       end.

(** [s.find(p)]: the lowest index, or -1. *)
Definition find (p s : str) : Z :=
  match index p s with
  | Some i => Z.of_nat i
  | None => (-1)%Z
  end.

(** [p in s] *)
Definition contains (p s : str) : bool :=
  match index p s with
  | Some _ => true
  | None => false
  end.

(** The scan of [s.split(sep)] for a non-empty [sep]: cut at the
    leftmost occurrence, continue behind it.  Each round consumes at
    least one character, so [length s] rounds are enough. *)
Fixpoint split_loop (fuel : nat) (sep s : str) : list str :=
  match fuel with
  | O => [s]
  | S fuel' =>
      match index sep s with
      | None => [s]
      | Some i => firstn i s :: split_loop fuel' sep (skipn (i + length sep) s)
      end
  end.

(** [s.split(sep)]; an empty separator raises [ValueError]. *)
Definition split (sep s : str) : result (list str) :=
  match sep with
  | [] => Raise ValueError
  | _ :: _ => Ok (split_loop (length s) sep s)
  end.

Fixpoint replace_loop (fuel : nat) (old new s : str) : str :=
  match fuel with
  | O => s
  | S fuel' =>
      match index old s with
      | None => s
      | Some i =>
          firstn i s ++ new ++ replace_loop fuel' old new (skipn (i + length old) s)
      end
  end.

(** [s.replace(old, new)]: every non-overlapping occurrence, left to
    right; an empty [old] matches before every character and at the
    end. *)
Definition replace (old new s : str) : str :=
  match old with
  | [] => new ++ flat_map (fun c => c :: new) s
  | _ :: _ => replace_loop (length s) old new s
  end.

(** [sep.join(parts)] *)
Fixpoint join (sep : str) (parts : list str) : str :=
  match parts with
  | [] => []
  | [x] => x
  | x :: parts' => x ++ sep ++ join sep parts'
  end.

(** [c.isspace()] on a single code point. *)
Definition isspace (c : char) : bool :=
  ((9 <=? c) && (c <=? 13) || (28 <=? c) && (c <=? 32)
   || (c =? 133) || (c =? 160) || (c =? 5760)
   || (8192 <=? c) && (c <=? 8202)
   || (c =? 8232) || (c =? 8233) || (c =? 8239) || (c =? 8287)
   || (c =? 12288))%N.

Fixpoint lstrip (s : str) : str :=
  match s with
  | [] => []
  | c :: s' => if isspace c then lstrip s' else s
  end.

Definition rstrip (s : str) : str := rev (lstrip (rev s)).

(** [s.strip()] *)
Definition strip (s : str) : str := rstrip (lstrip s).

(** Where a slice bound [i] lands in a sequence of length [len]. *)
Definition slice_bound (len : nat) (i : Z) : nat :=
  if (i <? 0)%Z then Z.to_nat (Z.max 0 (Z.of_nat len + i))
  else Nat.min (Z.to_nat i) len.

(** [s[:i]] *)
Definition slice_to (s : str) (i : Z) : str :=
  firstn (slice_bound (length s) i) s.

(** [s[i:]] *)
Definition slice_from (s : str) (i : Z) : str :=
  skipn (slice_bound (length s) i) s.

(** [l[i]] for a non-negative constant [i]. *)
Definition getitem {A : Type} (l : list A) (i : nat) : result A :=
  match nth_error l i with
  | Some x => Ok x
  | None => Raise IndexError
  end.

(** [l.pop(i)] for a non-negative [i], keeping the remaining list. *)
Definition pop {A : Type} (l : list A) (i : nat) : result (list A) :=
  if i <? length l then Ok (firstn i l ++ skipn (S i) l)
  else Raise IndexError.

(** An insertion-ordered [dict] with [str] keys: [d[k] = v] keeps the
    position of a key that is already present. *)
Fixpoint dict_set {V : Type} (k : str) (v : V) (d : list (str * V)) : list (str * V) :=
  match d with
  | [] => [(k, v)]
  | (k', v') :: d' =>
      if eqb k' k then (k', v) :: d' else (k', v') :: dict_set k v d'
  end.

End Py.

(** ** The document *)

Definition tab : char := 9%N.
Definition cr : char := 13%N.

(** The code points lxml accepts when a [str] is stored as element
    text: tab, line feed, carriage return and everything from U+0020
    on, except the surrogates and U+FFFE, U+FFFF.  Text with any other
    code point is refused with [ValueError] ("All strings must be XML
    compatible"; for a surrogate it is a UnicodeEncodeError, which is a
    ValueError as well). *)
Definition xml_char (c : char) : bool :=
  (((c =? 9) || (c =? 10) || (c =? 13) || (32 <=? c))
   && negb ((55296 <=? c) && (c <=? 57343))
   && negb ((c =? 65534) || (c =? 65535)))%N.

Definition xml_compatible (s : str) : bool := forallb xml_char s.

(** What a run holds: stretches of text, tabs and line breaks. *)
Inductive run_item :=
| Chars (t : str)
| Tab
| Break.

(** What [paragraph.add_run] and [add_hyperlink] append to a paragraph.
    The hyperlink node carries the fixed blue, underlined style. *)
Inductive run :=
| Run (content : list run_item)
| Hyperlink (url text : str).

Definition paragraph := list run.
Definition document := list paragraph.

(** The text an item reads back as. *)
Definition item_text (i : run_item) : str :=
  match i with
  | Chars t => t
  | Tab => [tab]
  | Break => [nl]
  end.

(** [run.text] of a run, the text node of a hyperlink. *)
Definition run_text (r : run) : str :=
  match r with
  | Run content => flat_map item_text content
  | Hyperlink _ t => t
  end.

Definition paragraph_text (p : paragraph) : str := flat_map run_text p.

(** The run-content appender behind [run.text = text]: the buffered
    characters become one text element when a tab, a line break or the
    end of the text is met; storing them is where lxml can refuse. *)
Definition flush (bfr : str) (items : list run_item) : result (list run_item) :=
  match bfr with
  | [] => Ok items
  | _ :: _ =>
      if xml_compatible bfr then Ok (items ++ [Chars bfr]) else Raise ValueError
  end.

Fixpoint append_to_run (text bfr : str) (items : list run_item)
  : result (list run_item) :=
  match text with
  | [] => flush bfr items
  | ch :: rest =>
      if (ch =? tab)%N then
        items' <- flush bfr items ;;
        append_to_run rest [] (items' ++ [Tab])
      else if ((ch =? cr) || (ch =? nl))%N then
        items' <- flush bfr items ;;
        append_to_run rest [] (items' ++ [Break])
      else append_to_run rest (bfr ++ [ch]) items
  end.

(** [paragraph.add_run(text)]: an empty text leaves the new run empty. *)
Definition add_run (p : paragraph) (text : str) : result paragraph :=
  match text with
  | [] => Ok (p ++ [Run []])
  | _ :: _ =>
      content <- append_to_run text [] [] ;;
      Ok (p ++ [Run content])
  end.

(** [add_hyperlink(paragraph, url, text)]: the relationship takes any
    [url]; [text_elem.text = text] stores the text as it is, or is
    refused by lxml. *)
Definition add_hyperlink (p : paragraph) (url text : str) : result paragraph :=
  if xml_compatible text then Ok (p ++ [Hyperlink url text]) else Raise ValueError.

(** The content the appender gives a text that is stored. *)
Definition flushed (bfr : str) : list run_item :=
  match bfr with
  | [] => []
  | _ :: _ => [Chars bfr]
  end.

Fixpoint run_content (text bfr : str) : list run_item :=
  match text with
  | [] => flushed bfr
  | ch :: rest =>
      if (ch =? tab)%N then flushed bfr ++ Tab :: run_content rest []
      else if ((ch =? cr) || (ch =? nl))%N then flushed bfr ++ Break :: run_content rest []
      else run_content rest (bfr ++ [ch])
  end.

(** The plain run of a text. *)
Definition Plain (text : str) : run := Run (run_content text []).

(** ** [create_hyperlinked_docx] *)

(** The inner [for category, url in links_dict.items()] loop; the flag
    is [link_found], and returning [true] is the [break]. *)
Fixpoint link_loop (line : str) (items : list (str * str)) (p : paragraph)
  : result (paragraph * bool) :=
  match items with
  | [] => Ok (p, false)
  | (category, url) :: rest =>
      if Py.contains category line then
        parts <- Py.split category line ;;
        if length parts =? 2 then
          before <- Py.getitem parts 0 ;;
          p1 <- add_run p before ;;
          p2 <- add_hyperlink p1 url category ;;
          after <- Py.getitem parts 1 ;;
          p3 <- add_run p2 after ;;
          Ok (p3, true)
        else link_loop line rest p
      else link_loop line rest p
  end.

(** The body of the outer loop for one line. *)
Definition build_paragraph (line : str) (links_dict : list (str * str))
  : result paragraph :=
  r <- link_loop line links_dict [] ;;
  let '(p, link_found) := r in
  if negb link_found then add_run p line else Ok p.

(** The outer [for line in lines] loop.  The source appends the empty
    paragraph first and fills it in place; here it is filled and then
    appended, which gives the same document whenever one is returned. *)
Fixpoint lines_loop (lines : list str) (links_dict : list (str * str))
  (doc : document) : result document :=
  match lines with
  | [] => Ok doc
  | line :: rest =>
      p <- build_paragraph line links_dict ;;
      lines_loop rest links_dict (doc ++ [p])
  end.

(** [Document()] starts without paragraphs. *)
Definition create_hyperlinked_docx (template_text : str)
  (links_dict : list (str * str)) : result document :=
  lines <- Py.split [nl] template_text ;;
  lines_loop lines links_dict [].

(** The targets of the external relationships that [add_hyperlink]
    records, one per hyperlink of the document. *)
Definition paragraph_targets (p : paragraph) : list str :=
  flat_map (fun r => match r with Hyperlink url _ => [url] | Run _ => [] end) p.

Definition relationship_targets (doc : document) : list str :=
  flat_map paragraph_targets doc.

(** [doc.save(doc_io)]: the relationships are written out as XML
    attributes, where lxml refuses a target that is not XML-compatible;
    the text of the document was accepted when it was stored. *)
Definition save (doc : document) : result unit :=
  if forallb xml_compatible (relationship_targets doc) then Ok tt
  else Raise ValueError.

(** ** The AI request *)

Inductive model := ClaudeSonnet45 | ClaudeSonnet4 | ClaudeOpus4 | Gemini20Flash.

Definition MODELS (m : model) : str :=
  match m with
  | ClaudeSonnet45 => lit "anthropic/claude-sonnet-4.5"
  | ClaudeSonnet4 => lit "anthropic/claude-sonnet-4"
  | ClaudeOpus4 => lit "anthropic/claude-opus-4"
  | Gemini20Flash => lit "google/gemini-2.0-flash-exp:free"
  end.

(** What the single POST can come back with.  The first three make
    [requests.post], [raise_for_status] or the indexing of the JSON body
    raise; [Completion] is a body whose first choice carries text. *)
Inductive http_reply :=
| TransportError
| BadStatus
| MalformedBody
| Completion (content : str).

(** The replies on which the call fails. *)
Definition failed (r : http_reply) : Prop :=
  match r with
  | Completion _ => False
  | TransportError | BadStatus | MalformedBody => True
  end.

(** The lines of a multi-line literal, joined by newlines. *)
Definition unlines (ls : list str) : str := Py.join [nl] ls.

Definition prompt_of (template ai_instructions : str) : str :=
  unlines
    [ lit "You are helping customize a communication template for a market research task.";
      [];
      lit "Original template:";
      template;
      [];
      lit "Special instructions for this specific campaign:";
      ai_instructions;
      [];
      lit "Please provide:";
      lit "1. A customized intro paragraph (keep it friendly and brief, 2-3 sentences max)";
      lit "2. Customized important notes/instructions based on the special instructions provided";
      [];
      lit "Format your response as:";
      lit "INTRO:";
      lit "[Your intro paragraph here]";
      [];
      lit "IMPORTANT_NOTES:";
      lit "[Your important notes here, as bullet points if needed]";
      [];
      lit "Keep all X placeholders intact for mail merge. Match the tone and style of the original." ].

Section Network.

(** The remote service: key, model identifier and prompt to reply. *)
Variable requests_post : str -> str -> str -> http_reply.

(** The [try]/[except Exception] of [call_openrouter]: every failure
    is reported and turned into [None]. *)
Definition call_openrouter (api_key model_id prompt : str) : option str :=
  match requests_post api_key model_id prompt with
  | Completion content => Some content
  | TransportError | BadStatus | MalformedBody => None
  end.

Definition generate_ai_content (api_key model_id template ai_instructions : str)
  : option str :=
  call_openrouter api_key model_id (prompt_of template ai_instructions).

End Network.

(** ** The splice of the AI response into the template *)

Definition INTRO : str := lit "INTRO:".
Definition IMPORTANT_NOTES : str := lit "IMPORTANT_NOTES:".
Definition HI : str := lit "Hi!".
(** U+1F37D U+FE0F, the plate emoji that opens the important section. *)
Definition PLATE : str := [127869%N; 65039%N].

(** Truth value of a [str]. *)
Definition truthy (s : str) : bool :=
  match s with
  | [] => false
  | _ :: _ => true
  end.

(** Lines 302-314 of the handler, on [ai_response] and [final_template]. *)
Definition splice (ai_response final_template : str) : result str :=
  if Py.contains INTRO ai_response && Py.contains IMPORTANT_NOTES ai_response then
    parts <- Py.split IMPORTANT_NOTES ai_response ;;
    part0 <- Py.getitem parts 0 ;;
    let intro := Py.strip (Py.replace INTRO [] part0) in
    part1 <- Py.getitem parts 1 ;;
    let notes := Py.strip part1 in
    if Py.contains HI final_template then
      let intro_start := Py.find HI final_template in
      let intro_end := Py.find PLATE final_template in
      if (intro_end >? intro_start)%Z then
        Ok (Py.slice_to final_template intro_start
            ++ (HI ++ [nl; nl] ++ intro ++ [nl; nl])
            ++ Py.slice_from final_template intro_end)
      else Ok final_template
    else Ok final_template
  else Ok final_template.

(** ** Session state and the link-management actions *)

Record link := { category : str; url : str }.

Inductive action :=
| AddLink (new_category new_url : str)
| DeleteLink (idx : nat)
| ClearAll.

(** One script run with one button pressed, on [st.session_state.links]. *)
Definition step (links : list link) (a : action) : result (list link) :=
  match a with
  | AddLink new_category new_url =>
      if truthy new_category && truthy new_url then
        Ok (links ++ [{| category := new_category; url := new_url |}])
      else Ok links
  | DeleteLink idx => Py.pop links idx
  | ClearAll => Ok []
  end.

(** A session starts with [links = []]. *)
Fixpoint run_from (links : list link) (acts : list action) : result (list link) :=
  match acts with
  | [] => Ok links
  | a :: acts' => links' <- step links a ;; run_from links' acts'
  end.

Definition session (acts : list action) : result (list link) := run_from [] acts.

(** [{link['category']: link['url'] for link in links}] *)
Definition links_dict_of (links : list link) : list (str * str) :=
  fold_left (fun d l => Py.dict_set (category l) (url l) d) links [].

(** ** The generate handler *)

Record form := {
  api_key : str;
  model_choice : model;
  template_text : str;
  ai_instructions : str;
  use_ai : bool
}.

Inductive validation_error := NoTemplate | NoLinks | NoApiKey | NoInstructions.

Inductive ai_status :=
| AiNotUsed
| AiCustomized (ai_response : str)
| AiFailed.

Inductive outcome :=
| Rejected (e : validation_error)
| Generated (doc : document) (ai : ai_status).

Section Handler.

Variable requests_post : str -> str -> str -> http_reply.

(** The AI block: the template to build from and what was reported. *)
Definition customize (f : form) : result (str * ai_status) :=
  let final_template := template_text f in
  if use_ai f then
    match generate_ai_content requests_post (api_key f) (MODELS (model_choice f))
            (template_text f) (ai_instructions f) with
    | Some ai_response =>
        if truthy ai_response then
          final_template' <- splice ai_response final_template ;;
          Ok (final_template', AiCustomized ai_response)
        else Ok (final_template, AiFailed)
    | None => Ok (final_template, AiFailed)
    end
  else Ok (final_template, AiNotUsed).

Definition generate (f : form) (links : list link) : result outcome :=
  if negb (truthy (template_text f)) then Ok (Rejected NoTemplate)
  else if match links with [] => true | _ :: _ => false end then Ok (Rejected NoLinks)
  else if use_ai f && negb (truthy (api_key f)) then Ok (Rejected NoApiKey)
  else if use_ai f && negb (truthy (ai_instructions f)) then Ok (Rejected NoInstructions)
  else
    r <- customize f ;;
    let '(final_template, ai) := r in
    let links_dict := links_dict_of links in
    doc <- create_hyperlinked_docx final_template links_dict ;;
    doc_io <- save doc ;;
    Ok (Generated doc ai).

End Handler.

(** ** The built-in templates and the template widgets *)

(** The keys of [TEMPLATES]: "In-Store Pasta Taste Test" and
    "Generic In-Store Task". *)
Inductive template_name := PastaTasteTest | GenericTask.

Definition TEMPLATES (name : template_name) : str :=
  match name with
  | PastaTasteTest => unlines
    [
      lit "In-Store Pasta X " ++ [8211%N] ++ lit " You've Been Selected! " ++ [127837%N];
      [];
      lit "Hi!";
      [];
      lit "We're delighted to let you know that you've been selected to take part in our latest In-Store X, for which you'll receive " ++ [163%N] ++ lit "X upon completion.";
      [];
      [127869%N; 65039%N] ++ lit " Important:";
      lit "* This is an in-store taste testing task, so you must visit a X";
      lit "* You must purchase the X specified in the task " ++ [8212%N] ++ lit " failure to do so may result in non-payment.";
      [];
      [128197%N] ++ lit " Deadline: X  (If you need an extension, please reach out " ++ [8212%N] ++ lit " we're happy to help.)";
      [];
      [128161%N] ++ lit " Before you begin: Make sure to check the map to confirm you're visiting an eligible Sainsbury's store before heading out.";
      [];
      [128203%N] ++ lit " Here are the links to your task briefs (please complete them in order or you will not be paid):";
      [];
      lit "1. Instructions Brief";
      lit "2. In Store " ++ [8211%N] ++ lit " Taste Test";
      lit "3. At Home " ++ [8211%N] ++ lit " Pre-Cooking";
      lit "4. At Home " ++ [8211%N] ++ lit " Post-Cooking";
      [];
      lit "If you experience any technical issues (e.g. broken uploads or app errors), please check our FAQs first " ++ [8212%N] ++ lit " most common questions are answered there.";
      [];
      [128233%N] ++ lit " Still need help? Email me at hannah.seddon@smg.com and include your reference code: X so I can assist you faster." ]
  | GenericTask => unlines
    [
      lit "In-Store X " ++ [8211%N] ++ lit " You've Been Selected!";
      [];
      lit "Hi!";
      [];
      lit "We're delighted to let you know that you've been selected to take part in our latest In-Store X, for which you'll receive " ++ [163%N] ++ lit "X upon completion.";
      [];
      [127869%N; 65039%N] ++ lit " Important:";
      lit "* This is an in-store task, so you must visit a X";
      lit "* You must complete all required activities specified in the task " ++ [8212%N] ++ lit " failure to do so may result in non-payment.";
      [];
      [128197%N] ++ lit " Deadline: X  (If you need an extension, please reach out " ++ [8212%N] ++ lit " we're happy to help.)";
      [];
      [128203%N] ++ lit " Here are the links to your task briefs (please complete them in order or you will not be paid):";
      [];
      lit "1. Instructions Brief";
      lit "2. In Store Task";
      [];
      lit "If you experience any technical issues (e.g. broken uploads or app errors), please check our FAQs first " ++ [8212%N] ++ lit " most common questions are answered there.";
      [];
      [128233%N] ++ lit " Still need help? Email me at hannah.seddon@smg.com and include your reference code: X so I can assist you faster." ]
  end.

(** The options of the template select box. *)
Inductive template_choice :=
| SelectPlaceholder
| Builtin (name : template_name)
| Custom.

(** [st.text_area(label, value=value)]: the text the user left in the
    area, or [value] while the area is untouched. *)
Definition text_area (value : str) (typed : option str) : str :=
  match typed with
  | Some s => s
  | None => value
  end.

(** Lines 207-216: the template the run works on. *)
Definition selected_template (choice : template_choice) (typed : option str) : str :=
  match choice with
  | SelectPlaceholder => []
  | Custom => text_area [] typed
  | Builtin name => text_area (TEMPLATES name) typed
  end.

(** The widgets that feed the generate handler. *)
Record widgets := {
  w_api_key : str;
  w_model_choice : model;
  w_template_option : template_choice;
  w_template_typed : option str;
  w_ai_instructions : str;
  w_use_ai : bool
}.

Definition form_of (w : widgets) : form :=
  {| api_key := w_api_key w;
     model_choice := w_model_choice w;
     template_text := selected_template (w_template_option w) (w_template_typed w);
     ai_instructions := w_ai_instructions w;
     use_ai := w_use_ai w |}.

(** ** The list of current links *)

(** Line 245: [link['url'][:50] + "..." if len(link['url']) > 50 else link['url']]. *)
Definition shown_url (url : str) : str :=
  if 50 <? length url then Py.slice_to url 50 ++ lit "..." else url.

(** The indices [idx] for which a [delete_{idx}] button is drawn
    (lines 238-249): those of [enumerate(links)]. *)
Definition delete_buttons (links : list link) : list nat := seq 0 (length links).

(** The number of hyperlink runs of a paragraph. *)
Definition hyperlinks (p : paragraph) : nat :=
  length (filter (fun r => match r with Hyperlink _ _ => true | Run _ => false end) p).

(** ** Vocabulary of the specification *)

(** [p] occurs in [s] at index [i]. *)
Definition occurs_at (p s : str) (i : nat) : Prop :=
  exists a b, s = a ++ p ++ b /\ length a = i.

Definition occurs (p s : str) : Prop := exists i, occurs_at p s i.

(** [i] is the index of the first occurrence of [p] in [s]. *)
Definition first_occurrence (p s : str) (i : nat) : Prop :=
  occurs_at p s i /\ forall k, occurs_at p s k -> i <= k.

(** [p] has two occurrences in [s] that do not overlap. *)
Definition occurs_twice (p s : str) : Prop :=
  exists a b c, s = a ++ p ++ b ++ p ++ c.

(** Every search key of the table is a non-empty string. *)
Definition keys_nonempty (links_dict : list (str * str)) : Prop :=
  Forall (fun e => fst e <> []) links_dict.

(** Every URL of the link list can be written into the package. *)
Definition urls_compatible (links : list link) : Prop :=
  Forall (fun l => xml_compatible (url l) = true) links.

(** The invariant of the session's link list. *)
Definition link_ok (l : link) : Prop := category l <> [] /\ url l <> [].


(** The four conditions under which generate refuses its input. *)
Definition invalid (f : form) (links : list link) : Prop :=
  template_text f = [] \/
  links = [] \/
  (use_ai f = true /\ api_key f = []) \/
  (use_ai f = true /\ ai_instructions f = []).

(** The items a table without repeated texts gives the builder. *)
Definition items_of (links : list link) : list (str * str) :=
  map (fun l => (category l, url l)) links.

(** ** The scenarios of the specification *)

Definition scenario_template : str :=
  HI ++ [nl] ++ PLATE ++ lit " Important: visit a store" ++ [nl]
  ++ lit "Visit: Instructions Brief".

Definition scenario_links : list link :=
  [ {| category := lit "Instructions Brief"; url := lit "http://x" |} ].

Definition scenario_response : str :=
  lit "INTRO:" ++ [nl] ++ lit "Hello there." ++ [nl; nl]
  ++ lit "IMPORTANT_NOTES:" ++ [nl] ++ lit "- note one".

(** A line in which the first entry of the table occurs twice. *)
Definition repeated_line : str := lit "a b a".
Definition repeated_links : list (str * str) :=
  [ (lit "a", lit "http://a"); (lit "b", lit "http://b") ].

(** A template without the greeting anchor. *)
Definition plain_template : str := lit "Dear all," ++ [nl] ++ PLATE ++ lit " Important:".

(** A network that is down. *)
Definition offline : str -> str -> str -> http_reply := fun _ _ _ => TransportError.

Definition scenario_form : form :=
  {| api_key := lit "sk-test";
     model_choice := ClaudeSonnet4;
     template_text := scenario_template;
     ai_instructions := lit "Keep it short.";
     use_ai := true |}.

(** A session: two links added, one refused for its empty text, one deleted. *)
Definition scenario_actions : list action :=
  [ AddLink (lit "Instructions Brief") (lit "http://x");
    AddLink [] (lit "http://y");
    AddLink (lit "FAQs") (lit "http://faq");
    DeleteLink 1 ].

(** The document of the scenario. *)
Definition scenario_document : document :=
  [ [Plain HI];
    [Plain (PLATE ++ lit " Important: visit a store")];
    [Plain (lit "Visit: "); Hyperlink (lit "http://x") (lit "Instructions Brief"); Plain []] ].

(** A table in which the text "FAQs" was added twice. *)
Definition readded_links : list link :=
  [ {| category := lit "FAQs"; url := lit "http://old" |};
    {| category := lit "Instructions Brief"; url := lit "http://x" |};
    {| category := lit "FAQs"; url := lit "http://new" |} ].

(** The scenario's response with other notes. *)
Definition other_notes_response : str :=
  lit "INTRO:" ++ [nl] ++ lit "Hello there." ++ [nl; nl]
  ++ lit "IMPORTANT_NOTES:" ++ [nl] ++ lit "- bring the receipt".

(** A service that answers with text that carries no marker. *)
Definition chatty : str -> str -> str -> http_reply :=
  fun _ _ _ => Completion (lit "Sure, here is your text.").

(** A service that answers with an empty completion. *)
Definition mute : str -> str -> str -> http_reply := fun _ _ _ => Completion [].

(** A service that customizes when it is asked. *)
Definition helpful : str -> str -> str -> http_reply :=
  fun _ _ _ => Completion scenario_response.

(** The scenario with the AI box unticked. *)
Definition scenario_form_no_ai : form :=
  {| api_key := [];
     model_choice := ClaudeSonnet4;
     template_text := scenario_template;
     ai_instructions := [];
     use_ai := false |}.

(** Lines with a vertical tab and with a carriage return. *)
Definition vt_line : str := lit "ok" ++ [11%N] ++ lit "line".
Definition cr_line : str := lit "a" ++ [cr].
Definition vt_link_line : str := [11%N] ++ lit "Instructions Brief".
Definition cr_link_line : str := [cr] ++ lit "Instructions Brief".


(** * Properties *)

(** ** Substring search *)
Section Search.

Implicit Types p s sep a b : str.

Lemma startswith_iff p s :
  Py.startswith p s = true <-> exists b, s = p ++ b.
Proof.
  revert s. induction p as [|x p IH]; intros s; simpl.
  - split; [intros _; now exists s | reflexivity].
  - destruct s as [|y s].
    + split; [discriminate | intros [b Hb]; discriminate].
    + rewrite andb_true_iff, N.eqb_eq, IH. split.
      * intros [-> [b ->]]. now exists b.
      * intros [b Hb]. injection Hb as -> ->. split; [reflexivity | now exists b].
Qed.

Lemma startswith_false_at_0 p s :
  Py.startswith p s = false -> ~ occurs_at p s 0.
Proof.
  intros Hf (a & b & Hs & Hlen).
  destruct a; [|discriminate]. simpl in Hs.
  assert (Py.startswith p s = true) by (apply startswith_iff; now exists b).
  congruence.
Qed.

Lemma occurs_at_cons p c s k :
  occurs_at p (c :: s) (S k) <-> occurs_at p s k.
Proof.
  split.
  - intros (a & b & Hs & Hlen). destruct a as [|c' a]; [discriminate|].
    injection Hs as -> ->. injection Hlen as <-. now exists a, b.
  - intros (a & b & -> & <-). now exists (c :: a), b.
Qed.

(** [Py.index] returns the first occurrence. *)
Lemma index_Some p s i :
  Py.index p s = Some i -> first_occurrence p s i.
Proof.
  revert i. induction s as [|c s IH]; intros i; simpl.
  - destruct (Py.startswith p []) eqn:E; [|discriminate].
    intros [= <-]. apply startswith_iff in E as [b Hb].
    split; [now exists [], b | intros; lia].
  - destruct (Py.startswith p (c :: s)) eqn:E.
    + intros [= <-]. apply startswith_iff in E as [b Hb].
      split; [now exists [], b | intros; lia].
    + destruct (Py.index p s) as [j|]; [|discriminate].
      intros [= <-]. destruct (IH j eq_refl) as [Hat Hmin]. split.
      * now apply occurs_at_cons.
      * intros [|k] Hk.
        -- now apply startswith_false_at_0 in E.
        -- apply occurs_at_cons in Hk. apply Hmin in Hk. lia.
Qed.

Lemma index_None p s :
  Py.index p s = None -> ~ occurs p s.
Proof.
  induction s as [|c s IH]; simpl.
  - destruct (Py.startswith p []) eqn:E; [discriminate|].
    intros _ [[|k] Hk].
    + now apply startswith_false_at_0 in E.
    + destruct Hk as (a & b & Hs & Hlen). destruct a; discriminate.
  - destruct (Py.startswith p (c :: s)) eqn:E; [discriminate|].
    destruct (Py.index p s) as [j|]; [discriminate|].
    intros _ [[|k] Hk].
    + now apply startswith_false_at_0 in E.
    + apply occurs_at_cons in Hk. apply IH; [reflexivity | now exists k].
Qed.

Lemma first_occurrence_index p s i :
  first_occurrence p s i -> Py.index p s = Some i.
Proof.
  intros [Hat Hmin]. destruct (Py.index p s) as [j|] eqn:E.
  - apply index_Some in E as [Hat' Hmin'].
    apply Hmin in Hat'. apply Hmin' in Hat. f_equal. lia.
  - apply index_None in E. exfalso. apply E. now exists i.
Qed.

Lemma contains_iff p s :
  Py.contains p s = true <-> occurs p s.
Proof.
  unfold Py.contains. destruct (Py.index p s) as [i|] eqn:E.
  - apply index_Some in E as [Hat _]. split; [now exists i | reflexivity].
  - apply index_None in E. split; [discriminate | contradiction].
Qed.

Lemma contains_false_iff p s :
  Py.contains p s = false <-> ~ occurs p s.
Proof.
  rewrite <- contains_iff. destruct (Py.contains p s); split; congruence.
Qed.

Lemma contains_index p s :
  Py.contains p s = true -> exists i, Py.index p s = Some i.
Proof.
  unfold Py.contains. destruct (Py.index p s) as [i|]; [now exists i | discriminate].
Qed.

(** The pieces around an occurrence. *)
Lemma occurs_at_pieces p s i :
  occurs_at p s i ->
  s = firstn i s ++ p ++ skipn (i + length p) s /\ i + length p <= length s.
Proof.
  intros (a & b & -> & <-). split.
  - rewrite firstn_app, firstn_all, Nat.sub_diag, firstn_O, app_nil_r.
    replace (a ++ p ++ b) with ((a ++ p) ++ b) at 2 by now rewrite app_assoc.
    rewrite skipn_app, length_app, Nat.sub_diag, skipn_O.
    rewrite skipn_all2 by (rewrite length_app; lia). reflexivity.
  - rewrite !length_app. lia.
Qed.

Lemma occurs_at_bound p s i : occurs_at p s i -> i + length p <= length s.
Proof. intros H. now apply occurs_at_pieces in H. Qed.

End Search.

(** ** [split] *)
Section Split.

Implicit Types p s sep a b : str.

Lemma index_nil_nonempty sep : sep <> [] -> Py.index sep [] = None.
Proof. destruct sep; [congruence | reflexivity]. Qed.

Lemma index_rest_shorter sep s i :
  sep <> [] -> Py.index sep s = Some i ->
  length (skipn (i + length sep) s) < length s.
Proof.
  intros Hsep E. apply index_Some in E as [Hat _].
  apply occurs_at_bound in Hat. rewrite length_skipn.
  destruct sep; [congruence | simpl in *; lia].
Qed.

Lemma split_loop_nonempty f sep s : 1 <= length (Py.split_loop f sep s).
Proof.
  destruct f; simpl; [lia|]. destruct (Py.index sep s); simpl; lia.
Qed.

(** Any fuel from [length s] on gives the same pieces. *)
Lemma split_loop_fuel sep : sep <> [] ->
  forall f1 f2 s, length s <= f1 -> length s <= f2 ->
  Py.split_loop f1 sep s = Py.split_loop f2 sep s.
Proof.
  intros Hsep. induction f1 as [|f1 IH]; intros f2 s H1 H2.
  - destruct s; [|simpl in H1; lia].
    destruct f2; cbn [Py.split_loop]; [reflexivity|]. now rewrite index_nil_nonempty.
  - destruct f2 as [|f2].
    + destruct s; [|simpl in H2; lia]. cbn [Py.split_loop]. now rewrite index_nil_nonempty.
    + cbn [Py.split_loop]. destruct (Py.index sep s) as [i|] eqn:E; [|reflexivity].
      pose proof (index_rest_shorter s Hsep E). f_equal. apply IH; lia.
Qed.

Lemma split_loop_unfold sep s : sep <> [] ->
  Py.split_loop (length s) sep s =
  match Py.index sep s with
  | None => [s]
  | Some i =>
      let rest := skipn (i + length sep) s in
      firstn i s :: Py.split_loop (length rest) sep rest
  end.
Proof.
  intros Hsep. rewrite (@split_loop_fuel sep Hsep (length s) (S (length s)) s) by lia.
  cbn [Py.split_loop]. destruct (Py.index sep s) as [i|] eqn:E; [|reflexivity].
  pose proof (index_rest_shorter s Hsep E). cbv zeta. f_equal.
  apply split_loop_fuel; [assumption | lia | lia].
Qed.

Lemma split_Ok sep s : sep <> [] ->
  Py.split sep s = Ok (Py.split_loop (length s) sep s).
Proof. destruct sep; [congruence | reflexivity]. Qed.

(** A separator that occurs, but never twice apart, cuts the string in
    two around its first occurrence. *)
Lemma split_once sep s i :
  sep <> [] -> first_occurrence sep s i -> ~ occurs_twice sep s ->
  Py.split_loop (length s) sep s = [firstn i s; skipn (i + length sep) s].
Proof.
  intros Hsep Hfirst Honce.
  rewrite split_loop_unfold by assumption.
  rewrite (first_occurrence_index Hfirst). cbv zeta.
  rewrite split_loop_unfold by assumption.
  destruct (Py.index sep (skipn (i + length sep) s)) as [j|] eqn:E; [|reflexivity].
  exfalso. apply Honce.
  apply index_Some in E as [(a' & b' & E' & _) _].
  destruct Hfirst as [Hat _]. apply occurs_at_pieces in Hat as [Hs _].
  exists (firstn i s), a', b'. now rewrite <- E'.
Qed.

(** With two occurrences apart, one lies behind the first occurrence. *)
Lemma occurs_twice_rest sep s i :
  Py.index sep s = Some i -> occurs_twice sep s ->
  occurs sep (skipn (i + length sep) s).
Proof.
  intros E (a & b & c & Hs).
  apply index_Some in E as [_ Hmin].
  assert (Hi : i <= length a) by (apply Hmin; now exists a, (b ++ sep ++ c)).
  subst s. replace (a ++ sep ++ b ++ sep ++ c)
    with ((a ++ sep) ++ b ++ sep ++ c) by now rewrite <- app_assoc.
  rewrite skipn_app.
  replace (i + length sep - length (a ++ sep)) with 0
    by (rewrite length_app; lia).
  rewrite skipn_O. rewrite app_assoc.
  eexists. eexists _, c. split; reflexivity.
Qed.

Lemma not_twice_by_index sep s i :
  Py.index sep s = Some i ->
  Py.index sep (skipn (i + length sep) s) = None ->
  ~ occurs_twice sep s.
Proof.
  intros E E2 H. apply index_None in E2. apply E2.
  now apply occurs_twice_rest.
Qed.


(** A separator that occurs gives at least two pieces, the first being
    the text before its first occurrence. *)
Lemma split_parts sep s :
  sep <> [] -> Py.contains sep s = true ->
  exists x y rest,
    Py.split sep s = Ok (x :: y :: rest) /\
    forall k, first_occurrence sep s k -> x = firstn k s.
Proof.
  intros Hsep Hc. apply contains_index in Hc as [i E].
  rewrite split_Ok, split_loop_unfold by assumption. rewrite E. cbv zeta.
  set (rest := skipn (i + length sep) s).
  assert (Hne : exists y r, Py.split_loop (length rest) sep rest = y :: r).
  { pose proof (split_loop_nonempty (length rest) sep rest).
    destruct (Py.split_loop (length rest) sep rest) as [|y r]; [simpl in *; lia|].
    now exists y, r. }
  destruct Hne as (y & r & ->). exists (firstn i s), y, r. split; [reflexivity|].
  intros k Hk. apply first_occurrence_index in Hk. congruence.
Qed.

(** Splitting on a single character. *)
Lemma split_char_length c : forall n s, length s <= n ->
  length (Py.split_loop n [c] s) = S (count_occ N.eq_dec s c).
Proof.
  induction n as [|n IH]; intros s Hn.
  - destruct s; [reflexivity | simpl in Hn; lia].
  - simpl Py.split_loop. destruct (Py.index [c] s) as [i|] eqn:E.
    + apply index_Some in E as [Hat Hmin].
      pose proof (occurs_at_pieces Hat) as [Hs Hb]. simpl in Hb.
      simpl length. rewrite IH by (rewrite length_skipn; lia).
      rewrite Hs at 2. rewrite count_occ_app. simpl.
      destruct (N.eq_dec c c) as [_|]; [|congruence].
      assert (H0 : count_occ N.eq_dec (firstn i s) c = 0).
      { apply count_occ_not_In. intros Hin. apply in_split in Hin as (l1 & l2 & Hl).
        assert (Hk : occurs_at [c] s (length l1)).
        { exists l1, (l2 ++ [c] ++ skipn (i + 1) s). split; [|reflexivity].
          rewrite Hs at 1. rewrite Hl. rewrite <- app_assoc. reflexivity. }
        apply Hmin in Hk. 
        assert (length (firstn i s) <= i) by apply firstn_le_length.
        rewrite Hl, length_app in H. simpl in H. lia. }
      unfold str, char in *. rewrite H0. reflexivity.
    + apply index_None in E. simpl. f_equal. symmetry.
      apply count_occ_not_In. intros Hin. apply in_split in Hin as (l1 & l2 & Hl).
      apply E. exists (length l1), l1, l2. now split.
Qed.

Lemma index_char_app c s t :
  Py.index [c] (s ++ t) =
  match Py.index [c] s with
  | Some i => Some i
  | None => option_map (Nat.add (length s)) (Py.index [c] t)
  end.
Proof.
  induction s as [|x s IH].
  - simpl app. rewrite index_nil_nonempty by discriminate.
    simpl. now destruct (Py.index [c] t).
  - simpl. destruct (c =? x)%N; simpl; [reflexivity|].
    rewrite IH. destruct (Py.index [c] s); [reflexivity|].
    now destruct (Py.index [c] t).
Qed.

(** A trailing separator adds a trailing empty piece. *)
Lemma split_char_trailing c : forall n s, length s <= n ->
  Py.split_loop (S n) [c] (s ++ [c]) = Py.split_loop n [c] s ++ [[]].
Proof.
  induction n as [|n IH]; intros s Hn.
  - destruct s; [|simpl in Hn; lia]. simpl. now rewrite N.eqb_refl.
  - remember (S n) as m. simpl. subst m.
    rewrite index_char_app. destruct (Py.index [c] s) as [i|] eqn:E.
    + pose proof (index_Some _ _ E) as [Hat _].
      pose proof (occurs_at_pieces Hat) as [Hs Hb]. simpl in Hb.
      rewrite firstn_app, skipn_app.
      replace (i - length s) with 0 by lia.
      replace (i + 1 - length s) with 0 by lia.
      rewrite firstn_O, skipn_O, app_nil_r.
      rewrite IH by (rewrite length_skipn; lia).
      simpl Py.split_loop at 2. rewrite E. reflexivity.
    + simpl Py.index. rewrite N.eqb_refl. simpl option_map.
      rewrite Nat.add_0_r. rewrite firstn_app, firstn_all, Nat.sub_diag, firstn_O, app_nil_r.
      rewrite skipn_all2 by (rewrite length_app; simpl; lia).
      simpl Py.split_loop at 1.
      simpl Py.split_loop at 1. rewrite E. reflexivity.
Qed.

End Split.

(** ** The pieces of a split *)
Section Pieces.

Implicit Types line c u T s sep x : str.
Implicit Types ch : char.

Lemma join_split_loop sep : forall n s, Py.join sep (Py.split_loop n sep s) = s.
Proof.
  induction n as [|n IH]; intros s; [reflexivity|]. cbn [Py.split_loop].
  destruct (Py.index sep s) as [i|] eqn:E; [|reflexivity].
  apply index_Some in E as [Hat _]. apply occurs_at_pieces in Hat as [Hs _].
  pose proof (split_loop_nonempty n sep (skipn (i + length sep) s)) as Hne.
  pose proof (IH (skipn (i + length sep) s)) as Hrest.
  destruct (Py.split_loop n sep (skipn (i + length sep) s)) as [|y ys];
    [simpl in Hne; lia|].
  cbn [Py.join] in *. rewrite Hrest. now symmetry.
Qed.

Lemma occurs_inside x s a b : occurs x s -> occurs x (a ++ s ++ b).
Proof.
  intros (i & a' & b' & -> & _). exists (length (a ++ a')), (a ++ a'), (b' ++ b).
  split; [|reflexivity]. now rewrite <- !app_assoc.
Qed.

Lemma occurs_trans c x s : occurs c x -> occurs x s -> occurs c s.
Proof.
  intros Hc (i & a & b & -> & _). now apply occurs_inside.
Qed.

Lemma occurs_skipn x s k : occurs x (skipn k s) -> occurs x s.
Proof.
  intros H. rewrite <- (firstn_skipn k s), <- (app_nil_r (skipn k s)).
  now apply occurs_inside.
Qed.

(** Every piece of a split is a substring of the string. *)
Lemma split_piece_occurs sep : forall n s x,
  In x (Py.split_loop n sep s) -> occurs x s.
Proof.
  assert (Hself : forall s, occurs s s).
  { intros s. exists 0, [], []. now rewrite app_nil_r. }
  induction n as [|n IH]; intros s x; cbn [Py.split_loop].
  - intros [<- | []]. apply Hself.
  - destruct (Py.index sep s) as [i|].
    + intros [<- | Hin].
      * exists 0, [], (skipn i s). split; [|reflexivity].
        simpl. now rewrite firstn_skipn.
      * apply IH in Hin. now apply occurs_skipn in Hin.
    + intros [<- | []]. apply Hself.
Qed.

Lemma char_occurs ch s : In ch s -> occurs [ch] s.
Proof.
  intros Hin. apply in_split in Hin as (l1 & l2 & ->).
  now exists (length l1), l1, l2.
Qed.

Lemma char_before_first ch s i : first_occurrence [ch] s i -> ~ In ch (firstn i s).
Proof.
  intros [Hat Hmin] Hin. apply in_split in Hin as (l1 & l2 & Hl).
  assert (Hk : occurs_at [ch] s (length l1)).
  { exists l1, (l2 ++ skipn i s). split; [|reflexivity].
    rewrite <- (firstn_skipn i s) at 1. rewrite Hl, <- app_assoc. reflexivity. }
  apply Hmin in Hk. pose proof (firstn_le_length i s) as Hle.
  rewrite Hl, length_app in Hle. simpl in Hle. lia.
Qed.

(** The pieces of a split on one character do not contain it. *)
Lemma split_char_piece_clean ch : forall n s x,
  length s <= n -> In x (Py.split_loop n [ch] s) -> ~ In ch x.
Proof.
  induction n as [|n IH]; intros s x Hn; cbn [Py.split_loop].
  - destruct s; [|simpl in Hn; lia]. now intros [<- | []].
  - destruct (Py.index [ch] s) as [i|] eqn:E.
    + pose proof (index_Some _ _ E) as Hfirst.
      pose proof (occurs_at_bound (proj1 Hfirst)) as Hb. simpl in Hb.
      intros [<- | Hin].
      * now apply char_before_first.
      * apply IH in Hin; [assumption | rewrite length_skipn; simpl; lia].
    + apply index_None in E. intros [<- | []] Hin. apply E. now apply char_occurs.
Qed.

Lemma occurs_In x s ch : occurs x s -> In ch x -> In ch s.
Proof.
  intros (i & a & b & -> & _) H. apply in_or_app. right. apply in_or_app. now left.
Qed.

End Pieces.

(** ** Runs and what lxml refuses *)
Section Runs.

Implicit Types text bfr s x : str.
Implicit Types items : list run_item.
Implicit Types p : paragraph.

Lemma xml_compatible_app s x :
  xml_compatible (s ++ x) = xml_compatible s && xml_compatible x.
Proof. apply forallb_app. Qed.

Lemma xml_compatible_occurs x s :
  occurs x s -> xml_compatible s = true -> xml_compatible x = true.
Proof.
  intros (i & a & b & -> & _). rewrite !xml_compatible_app, !andb_true_iff. tauto.
Qed.

Lemma flush_ok bfr items :
  xml_compatible bfr = true -> flush bfr items = Ok (items ++ flushed bfr).
Proof.
  destruct bfr as [|c bfr]; intros H; unfold flush, flushed.
  - now rewrite app_nil_r.
  - now rewrite H.
Qed.

Lemma flush_raise bfr items :
  xml_compatible bfr = false -> flush bfr items = Raise ValueError.
Proof.
  destruct bfr as [|c bfr]; intros H; unfold flush; [discriminate | now rewrite H].
Qed.

Lemma append_ok : forall text bfr items,
  xml_compatible bfr = true -> xml_compatible text = true ->
  append_to_run text bfr items = Ok (items ++ run_content text bfr).
Proof.
  induction text as [|ch text IH]; intros bfr items Hb Ht; cbn [append_to_run run_content].
  - now apply flush_ok.
  - change (xml_compatible (ch :: text)) with (xml_char ch && xml_compatible text) in Ht.
    apply andb_true_iff in Ht as [Hch Ht].
    destruct (ch =? tab)%N; [|destruct ((ch =? cr) || (ch =? nl))%N].
    + rewrite flush_ok by assumption. cbn [bind]. rewrite IH by auto.
      now rewrite <- !app_assoc.
    + rewrite flush_ok by assumption. cbn [bind]. rewrite IH by auto.
      now rewrite <- !app_assoc.
    + apply IH; [|assumption]. rewrite xml_compatible_app, Hb. simpl. now rewrite Hch.
Qed.

Lemma append_raise : forall text bfr items,
  xml_compatible (bfr ++ text) = false ->
  append_to_run text bfr items = Raise ValueError.
Proof.
  induction text as [|ch text IH]; intros bfr items H; cbn [append_to_run].
  - rewrite app_nil_r in H. now apply flush_raise.
  - assert (Hsep : xml_char ch = true ->
                   items' <- flush bfr items ;; append_to_run text [] (items' ++ [Tab])
                   = Raise ValueError /\
                   items' <- flush bfr items ;; append_to_run text [] (items' ++ [Break])
                   = Raise ValueError).
    { intros Hch. rewrite xml_compatible_app in H.
      change (xml_compatible (ch :: text)) with (xml_char ch && xml_compatible text) in H.
      rewrite Hch in H. simpl in H.
      destruct (xml_compatible bfr) eqn:Hb.
      - rewrite flush_ok by assumption. cbn [bind]. split; now apply IH.
      - rewrite flush_raise by assumption. now split. }
    destruct (N.eqb_spec ch tab) as [->|_]; [now apply Hsep|].
    destruct (N.eqb_spec ch cr) as [->|_]; [now apply Hsep|].
    destruct (N.eqb_spec ch nl) as [->|_]; [now apply Hsep|].
    cbn [orb]. apply IH. now rewrite <- app_assoc.
Qed.

Lemma add_run_ok p text :
  xml_compatible text = true -> add_run p text = Ok (p ++ [Plain text]).
Proof.
  intros H. destruct text as [|ch text]; [reflexivity|].
  unfold add_run, Plain. now rewrite append_ok.
Qed.

Lemma add_run_raise p text :
  xml_compatible text = false -> add_run p text = Raise ValueError.
Proof.
  intros H. destruct text as [|ch text]; [discriminate|].
  unfold add_run. now rewrite append_raise.
Qed.

Lemma add_run_inv p text p' :
  add_run p text = Ok p' -> p' = p ++ [Plain text] /\ xml_compatible text = true.
Proof.
  destruct (xml_compatible text) eqn:H.
  - rewrite add_run_ok by assumption. now intros [= <-].
  - rewrite add_run_raise by assumption. discriminate.
Qed.

Lemma add_hyperlink_inv p url text p' :
  add_hyperlink p url text = Ok p' ->
  p' = p ++ [Hyperlink url text] /\ xml_compatible text = true.
Proof.
  unfold add_hyperlink. destruct (xml_compatible text); [|discriminate].
  now intros [= <-].
Qed.

Lemma flushed_text bfr : flat_map item_text (flushed bfr) = bfr.
Proof. destruct bfr; simpl; [reflexivity | now rewrite app_nil_r]. Qed.

(** Without carriage returns a run reads back as the text it was given. *)
Lemma run_content_text : forall text bfr,
  ~ In cr text -> flat_map item_text (run_content text bfr) = bfr ++ text.
Proof.
  induction text as [|ch text IH]; intros bfr Hcr; cbn [run_content].
  - rewrite flushed_text. now rewrite app_nil_r.
  - assert (Hrest : ~ In cr text) by (intros H; apply Hcr; now right).
    destruct (N.eqb_spec ch tab) as [->|_].
    { rewrite flat_map_app, flushed_text. simpl. now rewrite IH. }
    destruct (N.eqb_spec ch cr) as [->|_]; [exfalso; apply Hcr; now left|].
    destruct (N.eqb_spec ch nl) as [->|_].
    { cbn [orb]. rewrite flat_map_app, flushed_text. simpl. now rewrite IH. }
    cbn [orb]. rewrite IH by assumption. now rewrite <- app_assoc.
Qed.

Lemma plain_text text : ~ In cr text -> run_text (Plain text) = text.
Proof. intros H. unfold Plain, run_text. now rewrite run_content_text. Qed.

End Runs.

(** ** The inner loop of the builder *)
Section LinkLoop.

Implicit Types line c u : str.
Implicit Types L : list (str * str).

Lemma link_loop_absent line c u L p :
  ~ occurs c line -> link_loop line ((c, u) :: L) p = link_loop line L p.
Proof.
  intros H. apply contains_false_iff in H. simpl. now rewrite H.
Qed.

(** The three runs around a text that cuts the line in two. *)
Lemma link_loop_cut line c u L p b a :
  Py.contains c line = true -> Py.split c line = Ok [b; a] ->
  xml_compatible line = true ->
  line = b ++ c ++ a /\
  link_loop line ((c, u) :: L) p = Ok (p ++ [Plain b; Hyperlink u c; Plain a], true).
Proof.
  intros Hin Hs Hx.
  assert (Hline : line = b ++ c ++ a).
  { destruct c as [|x c]; [discriminate Hs|]. injection Hs as Hs.
    rewrite <- (join_split_loop (x :: c) (length line) line), Hs. reflexivity. }
  split; [exact Hline|].
  rewrite Hline, !xml_compatible_app, !andb_true_iff in Hx. destruct Hx as (Hb & Hc & Ha).
  simpl. rewrite Hin, Hs. simpl.
  rewrite add_run_ok by assumption. cbn [bind]. unfold add_hyperlink. rewrite Hc. cbn [bind].
  rewrite add_run_ok by assumption. cbn [bind]. now rewrite <- !app_assoc.
Qed.

Lemma link_loop_once line c u L p i :
  c <> [] -> first_occurrence c line i -> ~ occurs_twice c line ->
  xml_compatible line = true ->
  link_loop line ((c, u) :: L) p =
  Ok (p ++ [Plain (firstn i line); Hyperlink u c; Plain (skipn (i + length c) line)], true).
Proof.
  intros Hc Hfirst Honce Hx.
  assert (Hin : Py.contains c line = true).
  { apply contains_iff. exists i. apply Hfirst. }
  apply link_loop_cut; try assumption.
  now rewrite split_Ok, (split_once Hc Hfirst Honce).
Qed.


(** The entries in front of the loop position do not matter when the
    continuations agree. *)
Lemma link_loop_app line L1 L L' p :
  link_loop line L p = link_loop line L' p ->
  link_loop line (L1 ++ L) p = link_loop line (L1 ++ L') p.
Proof.
  intros H. induction L1 as [|[c u] L1 IH]; [assumption|]. simpl.
  destruct (Py.contains c line); [|assumption].
  destruct (Py.split c line) as [parts|]; [|reflexivity]. cbn [bind].
  destruct (length parts =? 2); [reflexivity | assumption].
Qed.

Lemma link_loop_skip line L1 L p :
  (forall e, In e L1 -> ~ occurs (fst e) line) ->
  link_loop line (L1 ++ L) p = link_loop line L p.
Proof.
  induction L1 as [|[c u] L1 IH]; intros H; [reflexivity|].
  simpl app. rewrite link_loop_absent by (apply (H (c, u)); now left).
  apply IH. intros e He. apply H. now right.
Qed.

Lemma link_loop_none line L p :
  Forall (fun e => ~ occurs (fst e) line) L -> link_loop line L p = Ok (p, false).
Proof.
  intros H. rewrite <- (app_nil_r L), link_loop_skip; [reflexivity|].
  now apply Forall_forall.
Qed.

Lemma link_loop_total line L p :
  keys_nonempty L -> xml_compatible line = true ->
  exists r, link_loop line L p = Ok r.
Proof.
  intros HL Hx. induction HL as [|[c u] L Hc _ IH]; [now eexists|].
  simpl in Hc. destruct (Py.contains c line) eqn:Hin;
    [|simpl; rewrite Hin; exact IH].
  destruct (Py.split_loop (length line) c line) as [|b [|a [|z parts]]] eqn:Es;
    try (simpl; rewrite Hin, split_Ok, Es by assumption; exact IH).
  destruct (@link_loop_cut line c u L p b a Hin) as [_ Hcut];
    [now rewrite split_Ok, Es | assumption |].
  eexists. exact Hcut.
Qed.

(** On the empty line only an empty key can match, and splitting on it
    is refused. *)
Lemma link_loop_empty_line L p r :
  link_loop [] L p = Ok r -> r = (p, false).
Proof.
  induction L as [|[c u] L IH]; simpl; [now intros [= <-]|].
  destruct c as [|x c]; [discriminate | exact IH].
Qed.

Lemma build_paragraph_empty_line L p :
  build_paragraph [] L = Ok p -> p = [Plain []].
Proof.
  unfold build_paragraph.
  destruct (link_loop [] L []) as [r|e] eqn:E; cbn [bind]; [|discriminate].
  apply link_loop_empty_line in E. subst r. simpl. now intros [= <-].
Qed.

(** What the inner loop can leave behind. *)
Lemma link_loop_shape line : forall L p found,
  link_loop line L [] = Ok (p, found) ->
  (found = false /\ p = []) \/
  (found = true /\ exists b c u a,
     p = [Plain b; Hyperlink u c; Plain a] /\ In (c, u) L /\ Py.split c line = Ok [b; a]).
Proof.
  induction L as [|[c u] L IH]; intros p found; simpl.
  - intros [= <- <-]. now left.
  - assert (Hrest : link_loop line L [] = Ok (p, found) ->
      (found = false /\ p = []) \/
      (found = true /\ exists b c0 u0 a,
         p = [Plain b; Hyperlink u0 c0; Plain a] /\
         ((c, u) = (c0, u0) \/ In (c0, u0) L) /\ Py.split c0 line = Ok [b; a])).
    { intros H. apply IH in H as [H | (Hf & b & c0 & u0 & a & Hp & Hin & Hs)]; [now left|].
      right. split; [assumption|]. exists b, c0, u0, a. auto. }
    destruct (Py.contains c line); [|exact Hrest].
    destruct (Py.split c line) as [parts|e] eqn:Es; cbn [bind]; [|discriminate].
    destruct (length parts =? 2) eqn:El; [|exact Hrest].
    destruct parts as [|b [|a [|z parts]]]; try discriminate El.
    simpl.
    destruct (add_run [] b) as [p1|] eqn:E1; cbn [bind]; [|discriminate].
    destruct (add_hyperlink p1 u c) as [p2|] eqn:E2; cbn [bind]; [|discriminate].
    destruct (add_run p2 a) as [p3|] eqn:E3; cbn [bind]; [|discriminate].
    apply add_run_inv in E1 as [-> _]. apply add_hyperlink_inv in E2 as [-> _].
    apply add_run_inv in E3 as [-> _].
    intros [= <- <-]. right. split; [reflexivity|].
    exists b, c, u, a. auto.
Qed.

Lemma build_paragraph_shape line L p :
  build_paragraph line L = Ok p ->
  p = [Plain line] \/
  exists b c u a,
    p = [Plain b; Hyperlink u c; Plain a] /\ In (c, u) L /\ c <> [] /\
    line = b ++ c ++ a.
Proof.
  unfold build_paragraph.
  destruct (link_loop line L []) as [[p0 found]|e] eqn:E; cbn [bind]; [|discriminate].
  apply link_loop_shape in E as [[-> ->] | (-> & b & c & u & a & -> & Hin & Hs)]; simpl.
  - intros H. apply add_run_inv in H as [-> _]. now left.
  - intros [= <-]. right. exists b, c, u, a. repeat split; try assumption.
    + intros ->. discriminate Hs.
    + destruct c as [|x c]; [discriminate Hs|]. injection Hs as Hs.
      rewrite <- (join_split_loop (x :: c) (length line) line), Hs. reflexivity.
Qed.

(** Without carriage returns a paragraph reads back as its line. *)
Lemma build_paragraph_text line L p :
  build_paragraph line L = Ok p -> ~ In cr line -> paragraph_text p = line.
Proof.
  intros H Hcr.
  apply build_paragraph_shape in H as [-> | (b & c & u & a & -> & _ & _ & ->)];
    unfold paragraph_text; cbn [flat_map].
  - rewrite plain_text by assumption. now rewrite app_nil_r.
  - rewrite !plain_text, app_nil_r; [reflexivity | |];
      intros Hin; apply Hcr; rewrite !in_app_iff; auto.
Qed.

Lemma build_paragraph_total line L :
  keys_nonempty L -> xml_compatible line = true ->
  exists p, build_paragraph line L = Ok p.
Proof.
  intros H Hx. unfold build_paragraph.
  destruct (link_loop_total line [] H Hx) as [[p found] E]. rewrite E. cbn [bind].
  destruct found; simpl; [now eexists|].
  apply link_loop_shape in E as [[_ ->] | [Hf _]]; [|discriminate].
  rewrite add_run_ok by assumption. now eexists.
Qed.

Lemma lines_loop_inv L : forall lines doc0 doc,
  lines_loop lines L doc0 = Ok doc ->
  exists ps, doc = doc0 ++ ps /\
             Forall2 (fun line p => build_paragraph line L = Ok p) lines ps.
Proof.
  induction lines as [|line lines IH]; intros doc0 doc; simpl.
  - intros [= <-]. exists []. now rewrite app_nil_r.
  - destruct (build_paragraph line L) as [p|e] eqn:E; cbn [bind]; [|discriminate].
    intros H. apply IH in H as (ps & -> & Hall). exists (p :: ps).
    rewrite <- app_assoc. split; [reflexivity | now constructor].
Qed.

Lemma lines_loop_total L : keys_nonempty L ->
  forall lines doc, Forall (fun line => xml_compatible line = true) lines ->
  exists doc', lines_loop lines L doc = Ok doc'.
Proof.
  intros HL. induction lines as [|line lines IH]; intros doc Hx; [now eexists|].
  inversion Hx as [|? ? Hline Hrest]; subst.
  destruct (build_paragraph_total line HL Hline) as [p Hp].
  simpl. rewrite Hp. cbn [bind]. now apply IH.
Qed.

Lemma lines_loop_ext L L' : forall lines doc,
  (forall line, In line lines -> build_paragraph line L = build_paragraph line L') ->
  lines_loop lines L doc = lines_loop lines L' doc.
Proof.
  induction lines as [|line lines IH]; intros doc H; [reflexivity|]. simpl.
  rewrite <- (H line) by now left.
  destruct (build_paragraph line L); cbn [bind]; [|reflexivity].
  apply IH. intros l Hl. apply H. now right.
Qed.

(** Exactly one occurrence leaves no room for two apart. *)
Lemma unique_not_twice c line i :
  c <> [] -> (forall k, occurs_at c line k -> k = i) -> ~ occurs_twice c line.
Proof.
  intros Hc Huniq (a & b & d & Hs).
  assert (H1 : occurs_at c line (length a)) by now exists a, (b ++ c ++ d).
  assert (H2 : occurs_at c line (length (a ++ c ++ b))).
  { exists (a ++ c ++ b), d. split; [|reflexivity]. now rewrite <- !app_assoc. }
  apply Huniq in H1, H2. rewrite !length_app in H2.
  destruct c; [congruence | simpl in H2; lia].
Qed.

End LinkLoop.

(** ** The builder *)
Section Builder.

Implicit Types line c u T : str.
Implicit Types L : list (str * str).

Lemma Forall2_nth_error {A B : Type} (R : A -> B -> Prop) l l' :
  Forall2 R l l' ->
  forall n x, nth_error l n = Some x ->
  exists y, nth_error l' n = Some y /\ R x y.
Proof.
  intros HF. induction HF as [|x0 y0 l l' Hxy _ IH]; intros [|n] x; simpl;
    try discriminate.
  - intros [= ->]. now exists y0.
  - apply IH.
Qed.

Lemma occurs_at_unique_by_index c line i :
  Py.index c line = Some i -> Py.index c (skipn (S i) line) = None ->
  forall k, occurs_at c line k -> k = i.
Proof.
  intros E E2 k Hk. apply index_Some in E as [_ Hmin].
  pose proof (Hmin k Hk) as Hle. apply index_None in E2.
  destruct (Nat.eq_dec k i) as [|Hne]; [assumption|]. exfalso. apply E2.
  destruct Hk as (a & b & -> & <-). exists (length a - S i), (skipn (S i) a), b.
  rewrite skipn_app, length_skipn. replace (S i - length a) with 0 by lia.
  now rewrite skipn_O.
Qed.

(** The lines of an XML-compatible template are XML-compatible. *)
Lemma lines_compatible T :
  xml_compatible T = true ->
  Forall (fun line => xml_compatible line = true) (Py.split_loop (length T) [nl] T).
Proof.
  intros Hx. apply Forall_forall. intros line Hline.
  apply (@xml_compatible_occurs line T); [|assumption].
  now apply (@split_piece_occurs [nl] (length T)).
Qed.

Lemma builder_total T L :
  keys_nonempty L -> xml_compatible T = true ->
  exists doc, create_hyperlinked_docx T L = Ok doc.
Proof.
  intros HL Hx. unfold create_hyperlinked_docx.
  rewrite split_Ok by discriminate. cbn [bind].
  apply lines_loop_total; [assumption | now apply lines_compatible].
Qed.

(** The paragraphs of a returned document, line by line. *)
Lemma create_inv T L doc :
  create_hyperlinked_docx T L = Ok doc ->
  Forall2 (fun line p => build_paragraph line L = Ok p)
    (Py.split_loop (length T) [nl] T) doc.
Proof.
  unfold create_hyperlinked_docx. rewrite split_Ok by discriminate. cbn [bind].
  intros H. now apply lines_loop_inv in H as (ps & -> & Hall).
Qed.

(** C1. Every document the builder returns for a template and a link
    table has exactly one paragraph per element of the template split
    on the newline character, that is one more than the template has
    newline characters; an empty line yields an empty paragraph, the
    empty template yields exactly one empty paragraph, and a trailing
    newline yields a trailing empty paragraph.  A document is returned
    whenever the entries have non-empty texts and the template holds
    XML-compatible characters only. *)
Theorem paragraph_per_line T L :
  (forall doc,
     create_hyperlinked_docx T L = Ok doc ->
     exists lines,
       Py.split [nl] T = Ok lines /\
       length doc = length lines /\
       length lines = S (count_occ N.eq_dec T nl) /\
       (forall n, nth_error lines n = Some [] -> nth_error doc n = Some [Run []]) /\
       (T = [] -> doc = [[Run []]]) /\
       (forall T', T = T' ++ [nl] -> exists doc', doc = doc' ++ [[Run []]])) /\
  (keys_nonempty L -> xml_compatible T = true ->
   exists doc, create_hyperlinked_docx T L = Ok doc).
Proof.
  split; [|apply builder_total].
  intros doc Hdoc. apply create_inv in Hdoc as Hall.
  exists (Py.split_loop (length T) [nl] T).
  split; [now apply split_Ok|]. split; [symmetry; apply (Forall2_length Hall)|].
  split; [apply split_char_length; lia|]. split; [|split].
  - intros n Hn.
    destruct (Forall2_nth_error Hall n Hn) as (p & Hp & Hbuild).
    apply build_paragraph_empty_line in Hbuild. now subst p.
  - intros ->. simpl in Hall.
    inversion Hall as [|? p ? ps Hp Hrest]; subst. inversion Hrest; subst.
    apply build_paragraph_empty_line in Hp. now subst p.
  - intros T' ->.
    replace (length (T' ++ [nl])) with (S (length T')) in Hall
      by (rewrite length_app; simpl; lia).
    rewrite split_char_trailing in Hall by lia.
    apply Forall2_app_inv_l in Hall as (ps1 & ps2 & _ & Hlast & ->).
    inversion Hlast as [|? p ? ps Hp Hrest]; subst. inversion Hrest; subst.
    apply build_paragraph_empty_line in Hp. subst p. now exists ps1.
Qed.

Lemma paragraph_per_line_witness :
  exists doc,
    create_hyperlinked_docx scenario_template (links_dict_of scenario_links) = Ok doc /\
    length doc = 3.
Proof.
  destruct (paragraph_per_line scenario_template (links_dict_of scenario_links))
    as [Hcount Hexists].
  destruct Hexists as [doc Hdoc].
  - repeat constructor; discriminate.
  - reflexivity.
  - exists doc. split; [exact Hdoc|].
    destruct (Hcount doc Hdoc) as (lines & _ & Hlen & Hnl & _).
    rewrite Hlen, Hnl. reflexivity.
Defined.

(** C2, as the code has it. For every line of XML-compatible
    characters without a carriage return that contains exactly one
    occurrence of the (non-empty) text of exactly one link entry, the
    paragraph has exactly three runs: the text before the match, a
    hyperlink with the entry's text and URL, and the text after the
    match; the three run texts concatenated give back the line. *)
Theorem single_match_three_runs line L1 c u L2 i :
  c <> [] ->
  occurs_at c line i ->
  (forall k, occurs_at c line k -> k = i) ->
  Forall (fun e => ~ occurs (fst e) line) (L1 ++ L2) ->
  xml_compatible line = true ->
  ~ In cr line ->
  let before := firstn i line in
  let after := skipn (i + length c) line in
  build_paragraph line (L1 ++ (c, u) :: L2)
    = Ok [Plain before; Hyperlink u c; Plain after] /\
  run_text (Plain before) = before /\
  run_text (Plain after) = after /\
  paragraph_text [Plain before; Hyperlink u c; Plain after] = line.
Proof.
  intros Hc Hat Huniq Hothers Hx Hcr before after.
  assert (Hfirst : first_occurrence c line i).
  { split; [assumption|]. intros k Hk. apply Huniq in Hk. lia. }
  pose proof (occurs_at_pieces Hat) as [Hline _]. fold before after in Hline.
  assert (Hb : ~ In cr before)
    by (intros H; apply Hcr; rewrite Hline, !in_app_iff; auto).
  assert (Ha : ~ In cr after)
    by (intros H; apply Hcr; rewrite Hline, !in_app_iff; auto).
  split; [|split; [now apply plain_text | split; [now apply plain_text|]]].
  - unfold build_paragraph. rewrite link_loop_skip.
    + rewrite (link_loop_once u L2 [] Hc Hfirst (unique_not_twice Hc Huniq) Hx).
      reflexivity.
    + intros e He. rewrite Forall_forall in Hothers. apply Hothers.
      apply in_or_app. now left.
  - unfold paragraph_text. cbn [flat_map].
    rewrite !plain_text, app_nil_r by assumption. now symmetry.
Qed.

Lemma single_match_three_runs_witness :
  build_paragraph (lit "Visit: Instructions Brief") (links_dict_of scenario_links)
    = Ok [Plain (lit "Visit: "); Hyperlink (lit "http://x") (lit "Instructions Brief");
          Plain []].
Proof.
  refine (proj1 (@single_match_three_runs (lit "Visit: Instructions Brief") []
                   (lit "Instructions Brief") (lit "http://x") [] 7 _ _ _ _ _ _)).
  - discriminate.
  - apply index_Some. reflexivity.
  - apply occurs_at_unique_by_index; reflexivity.
  - constructor.
  - reflexivity.
  - intros H. vm_compute in H. intuition discriminate.
Defined.

(** C2 as stated fails: with a vertical tab in front of the only match
    no paragraph is built, the run is refused with ValueError; with a
    carriage return in front of it the first run holds a line break and
    the run texts no longer give back the line. *)
Lemma single_match_counterexample :
  occurs_at (lit "Instructions Brief") vt_link_line 1 /\
  build_paragraph vt_link_line (links_dict_of scenario_links) = Raise ValueError /\
  occurs_at (lit "Instructions Brief") cr_link_line 1 /\
  build_paragraph cr_link_line (links_dict_of scenario_links)
    = Ok [Run [Break]; Hyperlink (lit "http://x") (lit "Instructions Brief"); Run []] /\
  paragraph_text [Run [Break]; Hyperlink (lit "http://x") (lit "Instructions Brief"); Run []]
    = [nl] ++ lit "Instructions Brief".
Proof.
  repeat split; try reflexivity.
  - now exists [11%N], [].
  - now exists [cr], [].
Qed.




(** C4, as the code has it. When the line, of XML-compatible
    characters, contains the text of two link entries and no entry in
    front of the earlier one occurs in the line, the earlier entry is
    the one hyperlinked, wherever the two texts stand in the line,
    provided the earlier entry's (non-empty) text does not occur twice
    apart in the line. *)
Theorem earlier_entry_wins line L1 c1 u1 L2 c2 u2 L3 i :
  Forall (fun e => ~ occurs (fst e) line) L1 ->
  c1 <> [] ->
  first_occurrence c1 line i ->
  ~ occurs_twice c1 line ->
  occurs c2 line ->
  xml_compatible line = true ->
  build_paragraph line (L1 ++ (c1, u1) :: L2 ++ (c2, u2) :: L3)
    = Ok [Plain (firstn i line); Hyperlink u1 c1; Plain (skipn (i + length c1) line)].
Proof.
  intros Hfront Hc Hfirst Honce _ Hx.
  unfold build_paragraph. rewrite link_loop_skip.
  - now rewrite (link_loop_once u1 (L2 ++ (c2, u2) :: L3) [] Hc Hfirst Honce Hx).
  - now apply Forall_forall.
Qed.

Lemma earlier_entry_wins_witness :
  build_paragraph (lit "see b, then a") repeated_links
    = Ok [Plain (lit "see b, then "); Hyperlink (lit "http://a") (lit "a"); Plain []].
Proof.
  refine (@earlier_entry_wins (lit "see b, then a") [] (lit "a") (lit "http://a") []
            (lit "b") (lit "http://b") [] 12 _ _ _ _ _ _).
  - constructor.
  - discriminate.
  - apply index_Some. reflexivity.
  - apply (@not_twice_by_index _ _ 12); reflexivity.
  - apply contains_iff. reflexivity.
  - reflexivity.
Defined.

(** C4 as stated fails: "a" stands before "b" in the table and both
    occur in "a b a", yet the hyperlink is the one of "b". *)
Lemma earlier_entry_counterexample :
  occurs (lit "a") repeated_line /\ occurs (lit "b") repeated_line /\
  build_paragraph repeated_line repeated_links
    = Ok [Plain (lit "a "); Hyperlink (lit "http://b") (lit "b"); Plain (lit " a")] /\
  build_paragraph repeated_line repeated_links
    <> Ok [Plain []; Hyperlink (lit "http://a") (lit "a"); Plain (lit " b a")].
Proof.
  split; [|split; [|split]].
  - apply contains_iff. reflexivity.
  - apply contains_iff. reflexivity.
  - reflexivity.
  - discriminate.
Qed.

(** C5, as the code has it. For every line of XML-compatible
    characters without a carriage return in which no link entry's text
    occurs, the paragraph is exactly one plain run, and it reads as the
    line. *)
Theorem no_match_plain_run line L :
  Forall (fun e => ~ occurs (fst e) line) L ->
  xml_compatible line = true ->
  ~ In cr line ->
  build_paragraph line L = Ok [Plain line] /\
  run_text (Plain line) = line.
Proof.
  intros H Hx Hcr. split; [|now apply plain_text].
  unfold build_paragraph. rewrite link_loop_none by assumption. simpl.
  now apply add_run_ok.
Qed.

Lemma no_match_plain_run_witness :
  build_paragraph (lit "Hi!") (links_dict_of scenario_links) = Ok [Plain (lit "Hi!")].
Proof.
  refine (proj1 (@no_match_plain_run (lit "Hi!") (links_dict_of scenario_links) _ _ _)).
  - repeat constructor. apply contains_false_iff. reflexivity.
  - reflexivity.
  - intros H. vm_compute in H. intuition discriminate.
Defined.

(** C5 as stated fails: a line with a vertical tab matches no entry and
    no paragraph is built, the run is refused with ValueError; a line
    that ends in a carriage return gives a run that ends in a line
    break and reads with a newline in its place. *)
Lemma no_match_counterexample :
  ~ occurs (lit "Instructions Brief") vt_line /\
  build_paragraph vt_line (links_dict_of scenario_links) = Raise ValueError /\
  ~ occurs (lit "Instructions Brief") cr_line /\
  build_paragraph cr_line (links_dict_of scenario_links)
    = Ok [Run [Chars (lit "a"); Break]] /\
  run_text (Run [Chars (lit "a"); Break]) = lit "a" ++ [nl].
Proof.
  repeat split; try reflexivity; apply contains_false_iff; reflexivity.
Qed.

End Builder.
(** ** [strip] and [replace] *)
Section Trim.

Implicit Types s old new : str.

Lemma lstrip_spec s :
  exists ws,
    s = ws ++ Py.lstrip s /\
    forallb Py.isspace ws = true /\
    forall c rest, Py.lstrip s = c :: rest -> Py.isspace c = false.
Proof.
  induction s as [|c s (ws & Hs & Hws & Hhd)]; simpl.
  - exists []. repeat split. discriminate.
  - destruct (Py.isspace c) eqn:E.
    + exists (c :: ws). simpl. rewrite E, Hws. repeat split; [now f_equal | assumption].
    + exists []. repeat split. now intros c' rest [= <- _].
Qed.

(** [strip] removes a run of whitespace on either side and stops at
    the first and last character that is not whitespace. *)
Lemma strip_spec s :
  exists l r,
    s = l ++ Py.strip s ++ r /\
    forallb Py.isspace l = true /\
    forallb Py.isspace r = true /\
    (forall c rest, Py.strip s = c :: rest -> Py.isspace c = false) /\
    (forall c front, Py.strip s = front ++ [c] -> Py.isspace c = false).
Proof.
  destruct (lstrip_spec s) as (l & Hl & Hlws & Hlhd).
  destruct (lstrip_spec (rev (Py.lstrip s))) as (w & Hw & Hwws & Hwhd).
  assert (Hr : Py.lstrip s = Py.strip s ++ rev w).
  { unfold Py.strip, Py.rstrip. rewrite <- rev_app_distr, <- Hw. now rewrite rev_involutive. }
  exists l, (rev w). repeat split.
  - now rewrite <- Hr.
  - assumption.
  - rewrite forallb_forall in *. intros x Hx. apply Hwws. now apply in_rev.
  - intros c rest Hstrip. rewrite Hstrip in Hr. simpl in Hr. now apply (Hlhd _ _ Hr).
  - intros c front Hstrip. unfold Py.strip, Py.rstrip in Hstrip.
    apply (f_equal (@rev char)) in Hstrip. rewrite rev_involutive, rev_app_distr in Hstrip.
    simpl in Hstrip. now apply (Hwhd _ _ Hstrip).
Qed.

(** [replace] agrees with splitting on [old] and joining with [new]. *)
Lemma replace_loop_join old new : forall fuel s,
  Py.replace_loop fuel old new s = Py.join new (Py.split_loop fuel old s).
Proof.
  induction fuel as [|fuel IH]; intros s; simpl; [reflexivity|].
  destruct (Py.index old s) as [i|]; [|reflexivity].
  rewrite IH. cbn [Py.join].
  pose proof (split_loop_nonempty fuel old (skipn (i + length old) s)) as Hne.
  destruct (Py.split_loop fuel old (skipn (i + length old) s)); [simpl in Hne; lia|].
  reflexivity.
Qed.

Lemma replace_join old new s parts :
  Py.split old s = Ok parts -> Py.replace old new s = Py.join new parts.
Proof.
  destruct old as [|c old]; [discriminate|]. intros [= <-].
  apply replace_loop_join.
Qed.

End Trim.

(** ** The splice *)
Section Splice.

Implicit Types r t : str.

Lemma slice_to_nat t i : i <= length t -> Py.slice_to t (Z.of_nat i) = firstn i t.
Proof.
  intros H. unfold Py.slice_to, Py.slice_bound.
  destruct (Z.ltb_spec (Z.of_nat i) 0); [lia|].
  now rewrite Nat2Z.id, Nat.min_l.
Qed.

Lemma slice_from_nat t i : i <= length t -> Py.slice_from t (Z.of_nat i) = skipn i t.
Proof.
  intros H. unfold Py.slice_from, Py.slice_bound.
  destruct (Z.ltb_spec (Z.of_nat i) 0); [lia|].
  now rewrite Nat2Z.id, Nat.min_l.
Qed.

Lemma find_first p s i : first_occurrence p s i -> Py.find p s = Z.of_nat i.
Proof. intros H. unfold Py.find. now rewrite (first_occurrence_index H). Qed.

Lemma find_absent p s : ~ occurs p s -> Py.find p s = (-1)%Z.
Proof.
  intros H. unfold Py.find. destruct (Py.index p s) as [i|] eqn:E; [|reflexivity].
  exfalso. apply H. exists i. now apply index_Some in E as [? _].
Qed.

Lemma find_lower_bound p s : (-1 <= Py.find p s)%Z.
Proof. unfold Py.find. destruct (Py.index p s); lia. Qed.

(** The body of the splice once both markers have been seen. *)
Lemma splice_with_markers r t :
  Py.contains INTRO r = true -> Py.contains IMPORTANT_NOTES r = true ->
  exists part0,
    (forall k, first_occurrence IMPORTANT_NOTES r k -> part0 = firstn k r) /\
    splice r t =
      if Py.contains HI t then
        if (Py.find PLATE t >? Py.find HI t)%Z then
          Ok (Py.slice_to t (Py.find HI t)
              ++ (HI ++ [nl; nl] ++ Py.strip (Py.replace INTRO [] part0) ++ [nl; nl])
              ++ Py.slice_from t (Py.find PLATE t))
        else Ok t
      else Ok t.
Proof.
  intros Hi Hn.
  destruct (@split_parts IMPORTANT_NOTES r) as (x & y & rest & Hsplit & Hx);
    [discriminate | assumption |].
  exists x. split; [assumption|].
  unfold splice. rewrite Hi, Hn, Hsplit. reflexivity.
Qed.

(** The splice never raises. *)
Lemma splice_total r t : exists t', splice r t = Ok t'.
Proof.
  destruct (Py.contains INTRO r) eqn:Hi, (Py.contains IMPORTANT_NOTES r) eqn:Hn.
  - destruct (splice_with_markers r t Hi Hn) as (part0 & _ & ->).
    destruct (Py.contains HI t); [|now eexists].
    destruct (Py.find PLATE t >? Py.find HI t)%Z; now eexists.
  - unfold splice. rewrite Hi, Hn. now eexists.
  - unfold splice. rewrite Hi. now eexists.
  - unfold splice. rewrite Hi. now eexists.
Qed.

(** C6. When the response contains both markers, the template contains
    "Hi!" and the first plate emoji lies strictly behind the first
    "Hi!", the spliced template is: the template before "Hi!", then
    "Hi!", a blank line, the intro (the response before the first
    "IMPORTANT_NOTES:", with "INTRO:" removed, stripped), a blank line,
    and the template from the emoji on. *)
Theorem splice_replaces_intro r t i j k :
  occurs INTRO r ->
  first_occurrence IMPORTANT_NOTES r k ->
  first_occurrence HI t i ->
  first_occurrence PLATE t j ->
  i < j ->
  splice r t =
    Ok (firstn i t
        ++ HI ++ [nl; nl]
        ++ Py.strip (Py.replace INTRO [] (firstn k r)) ++ [nl; nl]
        ++ skipn j t).
Proof.
  intros Hintro Hnotes Hhi Hplate Hlt.
  assert (Hi : Py.contains INTRO r = true) by now apply contains_iff.
  assert (Hn : Py.contains IMPORTANT_NOTES r = true).
  { apply contains_iff. exists k. apply Hnotes. }
  destruct (splice_with_markers r t Hi Hn) as (part0 & Hpart & ->).
  rewrite (Hpart k Hnotes).
  assert (Hc : Py.contains HI t = true).
  { apply contains_iff. exists i. apply Hhi. }
  rewrite Hc, (find_first Hhi), (find_first Hplate).
  destruct (Z.gtb_spec (Z.of_nat j) (Z.of_nat i)); [|lia].
  pose proof (occurs_at_bound (proj1 Hhi)).
  pose proof (occurs_at_bound (proj1 Hplate)).
  rewrite slice_to_nat, slice_from_nat by lia.
  now rewrite <- !app_assoc.
Qed.

Lemma splice_replaces_intro_witness :
  splice scenario_response scenario_template =
    Ok (HI ++ [nl; nl] ++ lit "Hello there." ++ [nl; nl]
        ++ PLATE ++ lit " Important: visit a store" ++ [nl]
        ++ lit "Visit: Instructions Brief").
Proof.
  refine (@splice_replaces_intro scenario_response scenario_template 0 4 21 _ _ _ _ _).
  - apply contains_iff. reflexivity.
  - apply index_Some. reflexivity.
  - apply index_Some. reflexivity.
  - apply index_Some. reflexivity.
  - lia.
Defined.

(** C7. The splice returns the template unchanged whenever the response
    lacks the "INTRO:" marker, or lacks the "IMPORTANT_NOTES:" marker,
    or the template lacks "Hi!", or the plate emoji is absent from the
    template, or its first occurrence is at or before the first
    occurrence of "Hi!". *)
Theorem splice_skipped r t :
  ~ occurs INTRO r \/
  ~ occurs IMPORTANT_NOTES r \/
  ~ occurs HI t \/
  ~ occurs PLATE t \/
  (exists i j, first_occurrence HI t i /\ first_occurrence PLATE t j /\ j <= i) ->
  splice r t = Ok t.
Proof.
  intros H.
  destruct (Py.contains INTRO r) eqn:Hi; [|unfold splice; now rewrite Hi].
  destruct (Py.contains IMPORTANT_NOTES r) eqn:Hn; [|unfold splice; now rewrite Hi, Hn].
  destruct (splice_with_markers r t Hi Hn) as (part0 & _ & ->).
  destruct (Py.contains HI t) eqn:Hc; [|reflexivity].
  destruct (Z.gtb_spec (Py.find PLATE t) (Py.find HI t)) as [Hgt|]; [|reflexivity].
  exfalso. destruct H as [H | [H | [H | [H | (i & j & Hhi & Hplate & Hle)]]]].
  - apply H. now apply contains_iff.
  - apply H. now apply contains_iff.
  - apply H. now apply contains_iff.
  - rewrite (find_absent H) in Hgt. pose proof (find_lower_bound HI t). lia.
  - rewrite (find_first Hhi), (find_first Hplate) in Hgt. lia.
Qed.

Lemma splice_skipped_witness :
  splice scenario_response plain_template = Ok plain_template.
Proof.
  apply splice_skipped. right. right. left.
  apply contains_false_iff. reflexivity.
Defined.

End Splice.

(** ** The link table of a session *)
Section Session.

Implicit Types links : list link.

Lemma truthy_iff (s : str) : truthy s = true <-> s <> [].
Proof. destruct s; simpl; split; congruence. Qed.

Lemma Forall_pop {A : Type} (P : A -> Prop) (l l' : list A) i :
  Forall P l -> Py.pop l i = Ok l' -> Forall P l'.
Proof.
  intros H. unfold Py.pop. destruct (i <? length l); [|discriminate].
  intros [= <-]. apply Forall_app. split.
  - rewrite <- (firstn_skipn i l) in H. now apply Forall_app in H.
  - rewrite <- (firstn_skipn (S i) l) in H. now apply Forall_app in H.
Qed.

Lemma step_preserves links a links' :
  Forall link_ok links -> step links a = Ok links' -> Forall link_ok links'.
Proof.
  intros H. destruct a as [c u|idx|]; simpl.
  - destruct (truthy c) eqn:Hc, (truthy u) eqn:Hu; simpl; intros [= <-]; try assumption.
    apply Forall_app. split; [assumption|]. constructor; [|constructor].
    split; simpl; now apply truthy_iff.
  - now apply Forall_pop.
  - intros [= <-]. constructor.
Qed.

Lemma run_from_preserves acts : forall links links',
  Forall link_ok links -> run_from links acts = Ok links' -> Forall link_ok links'.
Proof.
  induction acts as [|a acts IH]; intros links links' H; simpl.
  - now intros [= <-].
  - destruct (step links a) as [links1|] eqn:E; [|discriminate]. cbn [bind].
    apply IH. now apply (step_preserves a H).
Qed.

Lemma dict_set_keys (k v : str) (d : list (str * str)) :
  k <> [] -> keys_nonempty d -> keys_nonempty (Py.dict_set k v d).
Proof.
  intros Hk. induction 1 as [|[k' v'] d Hk' Hd IH]; simpl.
  - repeat constructor. assumption.
  - destruct (Py.eqb k' k); constructor; assumption.
Qed.

Lemma links_dict_keys links :
  Forall link_ok links -> keys_nonempty (links_dict_of links).
Proof.
  unfold links_dict_of. assert (H0 : keys_nonempty []) by constructor.
  revert H0. generalize (@nil (str * str)) as d.
  induction links as [|l links IH]; intros d Hd H; simpl; [assumption|].
  inversion H as [|? ? [Hc _] Hrest]; subst.
  apply IH; [|assumption]. now apply dict_set_keys.
Qed.

Lemma eqb_eq (a b : str) : Py.eqb a b = true <-> a = b.
Proof.
  revert b. induction a as [|x a IH]; intros [|y b]; simpl;
    try (split; [discriminate | congruence]); [now split|].
  rewrite andb_true_iff, N.eqb_eq, IH. split; [intros [-> ->] | intros [= -> ->]]; auto.
Qed.

Lemma dict_set_fresh (k v : str) (d : list (str * str)) :
  ~ In k (map fst d) -> Py.dict_set k v d = d ++ [(k, v)].
Proof.
  induction d as [|[k' v'] d IH]; simpl; intros H; [reflexivity|].
  destruct (Py.eqb k' k) eqn:E.
  - apply eqb_eq in E. exfalso. apply H. now left.
  - rewrite IH; [reflexivity|]. intros Hin. apply H. now right.
Qed.

(** Without repeated texts the dict lists the table as it stands. *)
Lemma links_dict_nodup links :
  NoDup (map category links) -> links_dict_of links = items_of links.
Proof.
  unfold links_dict_of. change (items_of links) with ([] ++ items_of links).
  assert (H0 : forall k, In k (map fst (@nil (str * str))) -> ~ In k (map category links))
    by (intros k []).
  revert H0. generalize (@nil (str * str)) as d.
  induction links as [|l links IH]; intros d Hd Hnd; simpl.
  - now rewrite app_nil_r.
  - inversion Hnd as [|? ? Hnotin Hnd']; subst.
    rewrite dict_set_fresh by (intros Hin; apply (Hd _ Hin); now left).
    rewrite IH; [now rewrite <- app_assoc | | assumption].
    intros k Hin Hin'. rewrite map_app, in_app_iff in Hin. destruct Hin as [Hin | [<- | []]].
    + apply (Hd _ Hin). now right.
    + now apply Hnotin.
Qed.

Lemma dict_set_value (k v c u : str) (d : list (str * str)) :
  In (c, u) (Py.dict_set k v d) -> u = v \/ In (c, u) d.
Proof.
  induction d as [|[k' v'] d IH]; simpl.
  - intros [[= _ <-] | []]. now left.
  - destruct (Py.eqb k' k); simpl.
    + intros [[= _ <-] | H]; [now left | right; now right].
    + intros [H | H]; [right; now left|]. apply IH in H as [H | H]; auto.
Qed.

(** The URLs of the dict are URLs of the link list. *)
Lemma links_dict_values links c u :
  In (c, u) (links_dict_of links) -> In u (map url links).
Proof.
  unfold links_dict_of.
  assert (H : forall d, In (c, u) (fold_left (fun d l => Py.dict_set (category l) (url l) d)
                                     links d) ->
                        In (c, u) d \/ In u (map url links)).
  { induction links as [|l links IH]; intros d; simpl; [now left|].
    intros Hin. apply IH in Hin as [Hin | Hin]; [|right; now right].
    apply dict_set_value in Hin as [-> | Hin]; [right; now left | now left]. }
  intros Hin. now apply H in Hin as [[] | Hin].
Qed.

(** Hyperlinks refer to URLs of the table, so compatible URLs make the
    built document one that can be saved. *)
Lemma save_ok links T doc :
  create_hyperlinked_docx T (links_dict_of links) = Ok doc ->
  urls_compatible links ->
  save doc = Ok tt.
Proof.
  intros Hdoc Hurls. apply create_inv in Hdoc.
  assert (Htargets : forallb xml_compatible (relationship_targets doc) = true).
  { unfold relationship_targets.
    induction Hdoc as [|line p lines ps Hp _ IH]; [reflexivity|].
    simpl. rewrite forallb_app, IH, andb_true_r.
    apply build_paragraph_shape in Hp as [-> | (b & c & u & a & -> & Hin & _ & _)];
      [reflexivity|].
    simpl. rewrite andb_true_r. apply links_dict_values in Hin.
    apply in_map_iff in Hin as (l & <- & Hl).
    unfold urls_compatible in Hurls. rewrite Forall_forall in Hurls. now apply Hurls. }
  unfold save. now rewrite Htargets.
Qed.

(** C10. In every state a session can reach, each entry of the link
    table has a non-empty text and a non-empty URL: the add action
    changes the table only when both fields are non-empty, and the
    delete and clear-all actions keep the property; hence no search key
    handed to the builder is empty, and the builder returns a document
    for every template of XML-compatible characters. *)
Theorem link_table_invariant acts links :
  session acts = Ok links ->
  Forall link_ok links /\
  (forall c u links', step links (AddLink c u) = Ok links' ->
     links' <> links -> c <> [] /\ u <> []) /\
  (forall a links', step links a = Ok links' -> Forall link_ok links') /\
  keys_nonempty (links_dict_of links) /\
  (forall T, xml_compatible T = true ->
     exists doc, create_hyperlinked_docx T (links_dict_of links) = Ok doc).
Proof.
  intros Hrun.
  assert (Hinv : Forall link_ok links).
  { apply (@run_from_preserves acts [] links); [constructor | exact Hrun]. }
  pose proof (links_dict_keys Hinv) as Hkeys.
  split; [exact Hinv|]. split; [|split; [|split; [exact Hkeys|]]].
  - intros c u links' Hstep Hchanged. simpl in Hstep.
    destruct (truthy c) eqn:Hc, (truthy u) eqn:Hu; simpl in Hstep;
      try (injection Hstep as <-; congruence).
    split; now apply truthy_iff.
  - intros a links' Hstep. now apply (step_preserves a Hinv).
  - intros T HT. now apply builder_total.
Qed.

End Session.

Lemma link_table_invariant_witness :
  session scenario_actions = Ok scenario_links /\
  Forall link_ok scenario_links /\
  keys_nonempty (links_dict_of scenario_links).
Proof.
  assert (H : session scenario_actions = Ok scenario_links) by reflexivity.
  split; [exact H|].
  destruct (link_table_invariant scenario_actions H) as (Hinv & _ & _ & Hkeys & _).
  split; assumption.
Defined.

(** ** The generate handler *)
Section Generate.

Variable requests_post : str -> str -> str -> http_reply.

Implicit Types f : form.
Implicit Types links : list link.

Lemma truthy_false_iff (s : str) : truthy s = false <-> s = [].
Proof. destruct s; simpl; split; congruence. Qed.

Lemma customize_total f : exists t ai, customize requests_post f = Ok (t, ai).
Proof.
  unfold customize. destruct (use_ai f); [|now eexists _, _].
  destruct (generate_ai_content _ _ _ _ _) as [r|]; [|now eexists _, _].
  destruct (truthy r); [|now eexists _, _].
  destruct (splice_total r (template_text f)) as [t' ->]. now eexists _, _.
Qed.

Lemma generate_valid f links :
  template_text f <> [] -> links <> [] ->
  (use_ai f = true -> api_key f <> [] /\ ai_instructions f <> []) ->
  generate requests_post f links =
    (r <- customize requests_post f ;;
     let '(final_template, ai) := r in
     doc <- create_hyperlinked_docx final_template (links_dict_of links) ;;
     doc_io <- save doc ;;
     Ok (Generated doc ai)).
Proof.
  intros Ht Hl Hai. unfold generate.
  apply truthy_iff in Ht. rewrite Ht. simpl negb. cbv iota.
  destruct links as [|l links]; [congruence|].
  destruct (use_ai f); [|reflexivity].
  destruct (Hai eq_refl) as [Hk Hi]. apply truthy_iff in Hk, Hi.
  now rewrite Hk, Hi.
Qed.

(** C8. When validation passes, AI customization is on and the call
    fails (transport error, bad status or malformed body), generation
    goes on: the handler hands the original template text to the
    builder and saves what it returns.  With valid links, and a
    template and URLs of XML-compatible characters, that is the
    document built from the original template. *)
Theorem ai_failure_keeps_template f links :
  template_text f <> [] ->
  links <> [] ->
  use_ai f = true ->
  api_key f <> [] ->
  ai_instructions f <> [] ->
  failed (requests_post (api_key f) (MODELS (model_choice f))
            (prompt_of (template_text f) (ai_instructions f))) ->
  generate requests_post f links =
    (doc <- create_hyperlinked_docx (template_text f) (links_dict_of links) ;;
     doc_io <- save doc ;;
     Ok (Generated doc AiFailed)) /\
  (Forall link_ok links -> urls_compatible links ->
   xml_compatible (template_text f) = true ->
   exists doc,
     create_hyperlinked_docx (template_text f) (links_dict_of links) = Ok doc /\
     generate requests_post f links = Ok (Generated doc AiFailed)).
Proof.
  intros Ht Hl Hai Hk Hi Hfail.
  assert (Hgen : generate requests_post f links =
                 (doc <- create_hyperlinked_docx (template_text f) (links_dict_of links) ;;
                  doc_io <- save doc ;;
                  Ok (Generated doc AiFailed))).
  { rewrite generate_valid by (try assumption; now intros _).
    unfold customize, generate_ai_content, call_openrouter. rewrite Hai.
    destruct (requests_post _ _ _); try contradiction; reflexivity. }
  split; [exact Hgen|]. intros Hinv Hurls Hx.
  destruct (@builder_total (template_text f) _ (links_dict_keys Hinv) Hx) as [doc Hdoc].
  exists doc. split; [assumption|].
  rewrite Hgen, Hdoc. cbn [bind]. now rewrite (save_ok _ Hdoc Hurls).
Qed.

(** C9. Generate ends in a validation error, with no document, whenever
    the template is empty, or the link table is empty, or AI is on and
    the key is empty, or AI is on and the instructions are empty; a
    document is built only when none of these holds, and when none
    holds generate does not end in a validation error. *)
Theorem validation_gate f links :
  (invalid f links -> exists e, generate requests_post f links = Ok (Rejected e)) /\
  (forall doc ai,
     generate requests_post f links = Ok (Generated doc ai) -> ~ invalid f links) /\
  (~ invalid f links ->
   forall e, generate requests_post f links <> Ok (Rejected e)).
Proof.
  assert (Hrej : invalid f links ->
                 exists e, generate requests_post f links = Ok (Rejected e)).
  { unfold invalid, generate. intros H.
    destruct (truthy (template_text f)) eqn:Ht; [|now eexists]. simpl negb. cbv iota.
    destruct links as [|l links]; [now eexists|].
    destruct (use_ai f) eqn:Hai; simpl andb.
    - destruct (truthy (api_key f)) eqn:Hk; [|now eexists]. simpl negb. cbv iota.
      destruct (truthy (ai_instructions f)) eqn:Hi; [|now eexists].
      exfalso. apply truthy_iff in Ht, Hk, Hi.
      destruct H as [H | [H | [[_ H] | [_ H]]]]; congruence.
    - exfalso. apply truthy_iff in Ht.
      destruct H as [H | [H | [[H _] | [H _]]]]; congruence. }
  split; [exact Hrej|]. split.
  - intros doc ai Hgen Hinv. destruct (Hrej Hinv) as [e He]. congruence.
  - intros Hvalid e. unfold invalid in Hvalid.
    rewrite generate_valid.
    + destruct (customize requests_post f) as [[t ai]|]; cbn [bind]; [|discriminate].
      destruct (create_hyperlinked_docx t (links_dict_of links)) as [doc|];
        cbn [bind]; [|discriminate].
      destruct (save doc); cbn [bind]; discriminate.
    + intros E. apply Hvalid. now left.
    + intros E. apply Hvalid. right. now left.
    + intros Hai. split; intros E; apply Hvalid; right; right; [left | right]; now split.
Qed.

End Generate.

Lemma ai_failure_keeps_template_witness :
  exists doc,
    create_hyperlinked_docx scenario_template (links_dict_of scenario_links) = Ok doc /\
    generate offline scenario_form scenario_links = Ok (Generated doc AiFailed).
Proof.
  refine (proj2 (@ai_failure_keeps_template offline scenario_form scenario_links
                   _ _ _ _ _ _) _ _ _).
  - discriminate.
  - discriminate.
  - reflexivity.
  - discriminate.
  - discriminate.
  - exact I.
  - repeat constructor; discriminate.
  - repeat constructor.
  - reflexivity.
Defined.

Lemma validation_gate_witness :
  exists e,
    generate offline
      {| api_key := []; model_choice := ClaudeOpus4; template_text := scenario_template;
         ai_instructions := lit "Keep it short."; use_ai := true |}
      scenario_links = Ok (Rejected e).
Proof.
  refine (proj1 (@validation_gate offline _ scenario_links) _).
  right. right. left. split; reflexivity.
Defined.

(** * Further properties of the code *)

(** ** What the builder keeps and what it refuses *)
Section BuilderText.

Implicit Types line c u T s sep x : str.
Implicit Types L : list (str * str).
Implicit Types ch : char.

(** For a template without carriage returns, the paragraph texts of a
    built document are the lines of the template. *)
Lemma create_texts T L doc :
  create_hyperlinked_docx T L = Ok doc -> ~ In cr T ->
  map paragraph_text doc = Py.split_loop (length T) [nl] T.
Proof.
  intros H Hcr. apply create_inv in H.
  assert (Hlines : forall line, In line (Py.split_loop (length T) [nl] T) -> ~ In cr line).
  { intros line Hline Hin. apply Hcr.
    apply (@occurs_In line T cr); [|assumption].
    now apply (@split_piece_occurs [nl] (length T)). }
  induction H as [|line p lines ps Hp _ IH]; [reflexivity|].
  simpl. rewrite (build_paragraph_text _ _ Hp) by (apply Hlines; now left).
  rewrite IH; [reflexivity|]. intros l Hl. apply Hlines. now right.
Qed.

(** X1. Whenever a document is built from a template without carriage
    returns, its paragraph texts are exactly the lines of the template,
    and joining them with newlines gives the template back: no
    character is lost or added by the hyperlinking. *)
Theorem builder_keeps_text T L doc :
  create_hyperlinked_docx T L = Ok doc ->
  ~ In cr T ->
  Py.split [nl] T = Ok (map paragraph_text doc) /\
  Py.join [nl] (map paragraph_text doc) = T.
Proof.
  intros H Hcr. rewrite (create_texts _ _ H Hcr). split.
  - now apply split_Ok.
  - apply join_split_loop.
Qed.

(** X2. A paragraph has either one run or three, never more than one
    hyperlink, and a hyperlink it holds comes from the table: its text
    and URL are an entry of the table, the text is not empty and occurs
    in the line. *)
Theorem paragraph_has_one_link_at_most line L p :
  build_paragraph line L = Ok p ->
  (length p = 1 \/ length p = 3) /\
  hyperlinks p <= 1 /\
  forall u c, In (Hyperlink u c) p -> In (c, u) L /\ c <> [] /\ occurs c line.
Proof.
  intros H. apply build_paragraph_shape in H
    as [-> | (b & c0 & u0 & a & -> & Hin & Hc & ->)].
  - split; [now left|]. split; [unfold hyperlinks; simpl; lia|].
    intros u' c' [Hr | []]. discriminate.
  - split; [now right|]. split; [unfold hyperlinks; simpl; lia|].
    intros u' c' [Hr | [Hr | [Hr | []]]]; try discriminate.
    injection Hr as <- <-. repeat split; try assumption.
    now exists (length b), b, a.
Qed.

(** X3. An entry with an empty text makes the builder raise ValueError
    for every template, as soon as no entry in front of it occurs in
    the template: the empty string is found in the first line and
    splitting on it is refused. *)
Theorem empty_key_raises T L1 u L2 :
  Forall (fun e => ~ occurs (fst e) T) L1 ->
  create_hyperlinked_docx T (L1 ++ ([], u) :: L2) = Raise ValueError.
Proof.
  intros Hfront. unfold create_hyperlinked_docx.
  rewrite split_Ok by discriminate. cbn [bind].
  pose proof (split_loop_nonempty (length T) [nl] T) as Hne.
  pose proof (@split_piece_occurs [nl] (length T) T) as Hsub.
  destruct (Py.split_loop (length T) [nl] T) as [|line lines]; [simpl in Hne; lia|].
  simpl. unfold build_paragraph. rewrite link_loop_skip.
  - simpl. replace (Py.contains [] line) with true by now destruct line.
    reflexivity.
  - intros e He Hocc. rewrite Forall_forall in Hfront. apply (Hfront e He).
    apply (occurs_trans Hocc). apply Hsub. now left.
Qed.

(** X4. An entry whose text occurs nowhere in the template changes
    nothing: the outcome is the one of the table without it. *)
Theorem unused_link_is_harmless T L1 c u L2 :
  ~ occurs c T ->
  create_hyperlinked_docx T (L1 ++ (c, u) :: L2) = create_hyperlinked_docx T (L1 ++ L2).
Proof.
  intros Hc. unfold create_hyperlinked_docx.
  rewrite split_Ok by discriminate. cbn [bind].
  apply lines_loop_ext. intros line Hline. unfold build_paragraph. f_equal.
  apply link_loop_app, link_loop_absent. intros Hocc. apply Hc.
  apply (occurs_trans Hocc). now apply (@split_piece_occurs [nl] (length T)).
Qed.

(** X5. In a document built from a template without carriage returns
    no run holds a line break: no run reads with a newline in it. *)
Theorem runs_have_no_newline T L doc :
  create_hyperlinked_docx T L = Ok doc ->
  ~ In cr T ->
  forall p r, In p doc -> In r p ->
    ~ In nl (run_text r) /\ forall content, r = Run content -> ~ In Break content.
Proof.
  intros H Hcr p r Hp Hr.
  assert (Hnl : ~ In nl (run_text r)).
  { intros Hnl. apply (create_texts _ _ H) in Hcr.
    apply (@split_char_piece_clean nl (length T) T (paragraph_text p)).
    - lia.
    - rewrite <- Hcr. now apply in_map.
    - unfold paragraph_text. apply in_flat_map. now exists r. }
  split; [exact Hnl|]. intros content -> Hb. apply Hnl.
  simpl. apply in_flat_map. exists Break. split; [assumption | now left].
Qed.

Lemma add_run_raises_value_error (p : paragraph) (text : str) e :
  add_run p text = Raise e -> e = ValueError.
Proof.
  destruct (xml_compatible text) eqn:H.
  - rewrite add_run_ok by assumption. discriminate.
  - rewrite add_run_raise by assumption. now intros [= <-].
Qed.

(** A paragraph is only built from a line that lxml accepts, and the
    only exception the builder meets is ValueError. *)
Lemma link_loop_outcome line : forall L,
  match link_loop line L [] with
  | Ok (_, true) => xml_compatible line = true
  | Ok (_, false) => True
  | Raise e => e = ValueError
  end.
Proof.
  induction L as [|[c u] L IH]; simpl; [exact I|].
  destruct (Py.contains c line); [|exact IH].
  destruct c as [|x c]; [reflexivity|]. cbn [Py.split bind].
  destruct (length (Py.split_loop (length line) (x :: c) line) =? 2) eqn:El; [|exact IH].
  pose proof (join_split_loop (x :: c) (length line) line) as Hjoin.
  destruct (Py.split_loop (length line) (x :: c) line) as [|b [|a [|z parts]]];
    try discriminate El.
  cbn [Py.join] in Hjoin. simpl.
  destruct (add_run [] b) as [p1|e1] eqn:E1; cbn [bind];
    [|now apply add_run_raises_value_error in E1].
  apply add_run_inv in E1 as [-> Hb]. unfold add_hyperlink.
  destruct (xml_compatible (x :: c)) eqn:Hc; cbn [bind]; [|reflexivity].
  destruct (add_run _ a) as [p3|e3] eqn:E3; cbn [bind];
    [|now apply add_run_raises_value_error in E3].
  apply add_run_inv in E3 as [_ Ha].
  rewrite <- Hjoin, !xml_compatible_app, Hb, Hc, Ha. reflexivity.
Qed.

Lemma build_paragraph_outcome line L :
  match build_paragraph line L with
  | Ok _ => xml_compatible line = true
  | Raise e => e = ValueError
  end.
Proof.
  unfold build_paragraph. pose proof (link_loop_outcome line L) as H.
  destruct (link_loop line L []) as [[p [|]]|e]; cbn [bind]; simpl; try assumption.
  destruct (add_run p line) as [p'|e] eqn:E.
  - now apply add_run_inv in E.
  - now apply add_run_raises_value_error in E.
Qed.

Lemma xml_compatible_join : forall lines,
  Forall (fun line => xml_compatible line = true) lines ->
  xml_compatible (Py.join [nl] lines) = true.
Proof.
  induction 1 as [|line lines Hline Hrest IH]; [reflexivity|].
  destruct lines as [|line' lines]; [assumption|].
  change (Py.join [nl] (line :: line' :: lines))
    with (line ++ [nl] ++ Py.join [nl] (line' :: lines)).
  rewrite !xml_compatible_app, Hline, IH. reflexivity.
Qed.

Lemma lines_loop_outcome L : forall lines doc,
  match lines_loop lines L doc with
  | Ok _ => Forall (fun line => xml_compatible line = true) lines
  | Raise e => e = ValueError
  end.
Proof.
  induction lines as [|line lines IH]; intros doc; simpl; [constructor|].
  pose proof (build_paragraph_outcome line L) as Hline.
  destruct (build_paragraph line L) as [p|e]; cbn [bind]; [|assumption].
  specialize (IH (doc ++ [p])).
  destruct (lines_loop lines L (doc ++ [p])); [now constructor | assumption].
Qed.

(** X20. A template that holds a character lxml refuses (a control
    character other than tab, line feed and carriage return, a
    surrogate, U+FFFE or U+FFFF) never gives a document: the builder
    raises ValueError, whatever the link table is. *)
Theorem incompatible_template_raises T L :
  xml_compatible T = false ->
  create_hyperlinked_docx T L = Raise ValueError.
Proof.
  intros HT. unfold create_hyperlinked_docx.
  rewrite split_Ok by discriminate. cbn [bind].
  pose proof (lines_loop_outcome L (Py.split_loop (length T) [nl] T) []) as H.
  destruct (lines_loop (Py.split_loop (length T) [nl] T) L []) as [doc|e]; [|now subst e].
  apply xml_compatible_join in H. rewrite join_split_loop in H. congruence.
Qed.

End BuilderText.

Lemma builder_keeps_text_witness :
  Py.join [nl] (map paragraph_text scenario_document) = scenario_template.
Proof.
  refine (proj2 (@builder_keeps_text scenario_template (links_dict_of scenario_links)
                   scenario_document eq_refl _)).
  intros H. vm_compute in H. intuition discriminate.
Defined.

Lemma paragraph_has_one_link_at_most_witness :
  hyperlinks [Plain (lit "Visit: "); Hyperlink (lit "http://x") (lit "Instructions Brief");
              Plain []] <= 1.
Proof.
  exact (proj1 (proj2 (@paragraph_has_one_link_at_most (lit "Visit: Instructions Brief")
                         (links_dict_of scenario_links) _ eq_refl))).
Defined.

Lemma empty_key_raises_witness :
  create_hyperlinked_docx scenario_template
    ([(lit "FAQs", lit "http://faq")] ++ ([], lit "http://x") :: [])
  = Raise ValueError.
Proof.
  apply empty_key_raises.
  repeat constructor. apply contains_false_iff. reflexivity.
Defined.

Lemma unused_link_is_harmless_witness :
  create_hyperlinked_docx scenario_template
    ([] ++ (lit "FAQs", lit "http://faq") :: links_dict_of scenario_links)
  = create_hyperlinked_docx scenario_template ([] ++ links_dict_of scenario_links).
Proof.
  apply unused_link_is_harmless. apply contains_false_iff. reflexivity.
Defined.

Lemma runs_have_no_newline_witness :
  ~ In nl (run_text (Plain (lit "Visit: "))).
Proof.
  refine (proj1 (@runs_have_no_newline scenario_template (links_dict_of scenario_links)
            scenario_document eq_refl _
            [Plain (lit "Visit: "); Hyperlink (lit "http://x") (lit "Instructions Brief");
             Plain []]
            (Plain (lit "Visit: ")) _ _)).
  - intros H. vm_compute in H. intuition discriminate.
  - simpl. auto.
  - simpl. auto.
Defined.

Lemma incompatible_template_raises_witness :
  create_hyperlinked_docx vt_line (links_dict_of scenario_links) = Raise ValueError.
Proof.
  apply incompatible_template_raises. reflexivity.
Defined.

(** ** The dict of links, the link list and its display *)
Section LinkList.

Implicit Types links : list link.
Implicit Types d : list (str * str).
Implicit Types k v c u : str.

Lemma eqb_neq k k' : Py.eqb k' k = false -> k' <> k.
Proof. intros E H. apply eqb_eq in H. congruence. Qed.

Lemma dict_set_in_keys k v d k0 :
  In k0 (map fst (Py.dict_set k v d)) <-> k0 = k \/ In k0 (map fst d).
Proof.
  induction d as [|[k' v'] d IH]; simpl.
  - intuition.
  - destruct (Py.eqb k' k) eqn:E; simpl.
    + apply eqb_eq in E. subst k'. intuition.
    + rewrite IH. intuition.
Qed.

Lemma dict_set_same_keys k v d :
  In k (map fst d) -> map fst (Py.dict_set k v d) = map fst d.
Proof.
  induction d as [|[k' v'] d IH]; simpl; [intros []|].
  destruct (Py.eqb k' k) eqn:E; [reflexivity|].
  apply eqb_neq in E. intros [H | H]; [congruence|]. simpl. now rewrite IH.
Qed.

Lemma dict_set_nodup k v d :
  NoDup (map fst d) -> NoDup (map fst (Py.dict_set k v d)).
Proof.
  induction d as [|[k' v'] d IH]; simpl; intros H.
  - repeat constructor. intros [].
  - inversion H as [|? ? Hnotin Hnd]; subst.
    destruct (Py.eqb k' k) eqn:E; simpl; [now constructor|].
    constructor; [|now apply IH].
    rewrite dict_set_in_keys. apply eqb_neq in E. intuition.
Qed.

Lemma dict_set_in k v d c u :
  NoDup (map fst d) ->
  In (c, u) (Py.dict_set k v d) <-> (c = k /\ u = v) \/ (c <> k /\ In (c, u) d).
Proof.
  induction d as [|[k' v'] d IH]; simpl; intros H.
  - split.
    + intros [[= <- <-] | []]. now left.
    + intros [[-> ->] | [_ []]]. now left.
  - inversion H as [|? ? Hnotin Hnd]; subst.
    assert (Hkey : forall x, In (k', x) d -> False).
    { intros x Hx. apply Hnotin. apply (in_map fst) in Hx. exact Hx. }
    destruct (Py.eqb k' k) eqn:E; simpl.
    + apply eqb_eq in E. subst k'. split.
      * intros [[= <- <-] | Hin]; [now left|]. right. split; [|now right].
        intros ->. now apply (Hkey u).
      * intros [[-> ->] | [Hne [[= -> _] | Hin]]]; [now left | congruence | now right].
    + apply eqb_neq in E. rewrite (IH Hnd). split.
      * intros [[= <- <-] | [[-> ->] | [Hne Hin]]]; [right | now left | right]; auto.
      * intros [[-> ->] | [Hne [[= <- <-] | Hin]]]; auto.
Qed.

Lemma fold_dict_keys links : forall d k0,
  In k0 (map fst (fold_left (fun d l => Py.dict_set (category l) (url l) d) links d))
  <-> In k0 (map fst d) \/ In k0 (map category links).
Proof.
  induction links as [|l links IH]; intros d k0; simpl; [intuition|].
  rewrite IH, dict_set_in_keys. intuition.
Qed.

Lemma fold_dict_spec links : forall d,
  NoDup (map fst d) ->
  let r := fold_left (fun d l => Py.dict_set (category l) (url l) d) links d in
  NoDup (map fst r) /\
  forall c u,
    In (c, u) r <->
    (exists l1 l2, links = l1 ++ {| category := c; url := u |} :: l2 /\
                   ~ In c (map category l2)) \/
    (~ In c (map category links) /\ In (c, u) d).
Proof.
  induction links as [|[k v] links IH]; intros d Hd; simpl.
  - split; [assumption|]. intros c u. split.
    + intros H. right. auto.
    + intros [(l1 & l2 & H & _) | [_ H]]; [now destruct l1 | assumption].
  - destruct (IH (Py.dict_set k v d) (@dict_set_nodup k v d Hd)) as [Hnd Hin].
    split; [exact Hnd|]. intros c u. rewrite Hin, (@dict_set_in k v d c u Hd). split.
    + intros [(l1 & l2 & -> & Hlast) | [Hnot [[-> ->] | [Hne Hd']]]].
      * left. now exists ({| category := k; url := v |} :: l1), l2.
      * left. now exists [], links.
      * right. split; [|assumption]. intros [H | H]; [congruence | contradiction].
    + intros [(l1 & l2 & Heq & Hlast) | [Hnot Hd']].
      * destruct l1 as [|l l1]; simpl in Heq.
        -- injection Heq as -> -> <-. right. split; [assumption | now left].
        -- injection Heq as _ ->. left. now exists l1, l2.
      * right. split; [intros H; apply Hnot; now right|].
        right. split; [intros ->; apply Hnot; now left | assumption].
Qed.

(** X6. In the dict handed to the builder every link text is a key
    once, and its URL is the one of the last link entered with that
    text. *)
Theorem links_dict_last_url_wins links :
  NoDup (map fst (links_dict_of links)) /\
  forall c u,
    In (c, u) (links_dict_of links) <->
    exists l1 l2, links = l1 ++ {| category := c; url := u |} :: l2 /\
                  ~ In c (map category l2).
Proof.
  destruct (@fold_dict_spec links [] (NoDup_nil _)) as [Hnd Hin].
  split; [exact Hnd|]. intros c u. unfold links_dict_of. rewrite Hin.
  split; [intros [H | [_ []]]; exact H | now left].
Qed.

(** X7. Entering one more link is one dict assignment: a text that is
    already in the table keeps its place in the search order, a new
    text goes to the end. *)
Theorem readded_link_keeps_its_place links c u :
  let links' := links ++ [{| category := c; url := u |}] in
  links_dict_of links' = Py.dict_set c u (links_dict_of links) /\
  (In c (map category links) ->
   map fst (links_dict_of links') = map fst (links_dict_of links)) /\
  (~ In c (map category links) ->
   links_dict_of links' = links_dict_of links ++ [(c, u)]).
Proof.
  intros links'.
  assert (Hset : links_dict_of links' = Py.dict_set c u (links_dict_of links)).
  { unfold links', links_dict_of. now rewrite fold_left_app. }
  assert (Hkeys : In c (map fst (links_dict_of links)) <-> In c (map category links)).
  { unfold links_dict_of. rewrite fold_dict_keys. simpl. intuition. }
  split; [exact Hset|]. split; intros H; rewrite Hset.
  - apply dict_set_same_keys. now apply Hkeys.
  - apply dict_set_fresh. now rewrite Hkeys.
Qed.

Lemma pop_last {A : Type} (l : list A) (x : A) : Py.pop (l ++ [x]) (length l) = Ok l.
Proof.
  unfold Py.pop. rewrite length_app. cbn [length].
  destruct (Nat.ltb_spec (length l) (length l + 1)); [|lia].
  rewrite firstn_app, firstn_all, Nat.sub_diag, firstn_O, app_nil_r.
  rewrite skipn_all2 by (rewrite length_app; cbn [length]; lia).
  now rewrite app_nil_r.
Qed.

(** X8. Adding a link and pressing its delete button gives back the
    table as it was. *)
Theorem add_then_delete_restores links c u :
  c <> [] -> u <> [] ->
  run_from links [AddLink c u; DeleteLink (length links)] = Ok links.
Proof.
  intros Hc Hu. apply truthy_iff in Hc, Hu.
  cbn [run_from step]. rewrite Hc, Hu. cbn [andb bind].
  now rewrite pop_last.
Qed.

(** X9. Every delete button that is drawn works: it removes exactly
    the entry of its row, the entries in front stay where they are and
    the entries behind move up by one.  An index without a button
    would raise IndexError. *)
Theorem delete_button_removes_its_row links :
  (forall idx, In idx (delete_buttons links) ->
     exists links',
       step links (DeleteLink idx) = Ok links' /\
       length links = S (length links') /\
       (forall n, n < idx -> nth_error links' n = nth_error links n) /\
       (forall n, idx <= n -> nth_error links' n = nth_error links (S n))) /\
  (forall idx, ~ In idx (delete_buttons links) ->
     step links (DeleteLink idx) = Raise IndexError).
Proof.
  unfold delete_buttons. split; intros idx H; rewrite in_seq in H; cbn [step]; unfold Py.pop.
  - destruct (Nat.ltb_spec idx (length links)); [|lia].
    eexists. split; [reflexivity|].
    assert (Hlen : length (firstn idx links) = idx) by (rewrite length_firstn; lia).
    split; [|split].
    + rewrite length_app, Hlen, length_skipn. lia.
    + intros n Hn. rewrite nth_error_app1 by lia. rewrite nth_error_firstn.
      destruct (Nat.ltb_spec n idx); [reflexivity | lia].
    + intros n Hn. rewrite nth_error_app2 by lia. rewrite Hlen, nth_error_skipn.
      f_equal. lia.
  - destruct (Nat.ltb_spec idx (length links)); [lia | reflexivity].
Qed.

(** X10. The URL column shows at most 53 characters: a URL of up to 50
    characters in full, a longer one as its first 50 characters and
    three dots. *)
Theorem shown_url_is_bounded (url : str) :
  length (shown_url url) <= 53 /\
  firstn 50 (shown_url url) = firstn 50 url /\
  (length url <= 50 -> shown_url url = url) /\
  (50 < length url -> shown_url url = firstn 50 url ++ lit "...").
Proof.
  unfold shown_url.
  assert (Hslice : 50 <= length url -> Py.slice_to url 50 = firstn 50 url).
  { intros H. apply (slice_to_nat url (i := 50)). exact H. }
  destruct (Nat.ltb_spec 50 (length url)) as [Hlong | Hshort].
  - rewrite Hslice by lia. split; [|split; [|split]].
    + rewrite length_app, length_firstn. change (length (lit "...")) with 3. lia.
    + rewrite firstn_app, length_firstn, firstn_firstn.
      replace (50 - Nat.min 50 (length url)) with 0 by lia.
      now rewrite firstn_O, app_nil_r, Nat.min_id.
    + intros H. lia.
    + reflexivity.
  - split; [lia|]. split; [reflexivity|]. split; [reflexivity|]. intros H. lia.
Qed.

End LinkList.

Lemma add_then_delete_restores_witness :
  run_from scenario_links
    [AddLink (lit "FAQs") (lit "http://faq"); DeleteLink (length scenario_links)]
  = Ok scenario_links.
Proof.
  apply add_then_delete_restores; discriminate.
Defined.

Lemma links_dict_last_url_wins_witness :
  In (lit "FAQs", lit "http://new") (links_dict_of readded_links).
Proof.
  apply (proj2 (links_dict_last_url_wins readded_links)).
  exists [ {| category := lit "FAQs"; url := lit "http://old" |};
           {| category := lit "Instructions Brief"; url := lit "http://x" |} ], [].
  split; [reflexivity | intros []].
Defined.

(** ** More on the splice *)
Section SpliceFrame.

Implicit Types r t : str.

Lemma splice_without_markers r t :
  ~ occurs INTRO r \/ ~ occurs IMPORTANT_NOTES r \/ ~ occurs HI t ->
  splice r t = Ok t.
Proof.
  intros H.
  destruct (Py.contains INTRO r) eqn:Hi; [|unfold splice; now rewrite Hi].
  destruct (Py.contains IMPORTANT_NOTES r) eqn:Hn; [|unfold splice; now rewrite Hi, Hn].
  destruct (splice_with_markers r t Hi Hn) as (part0 & _ & ->).
  destruct (Py.contains HI t) eqn:Hc; [|reflexivity].
  exfalso. destruct H as [H | [H | H]]; apply H; now apply contains_iff.
Qed.

(** The splice at the indices [find] returns. *)
Lemma splice_at_index r t i j :
  Py.contains INTRO r = true -> Py.contains IMPORTANT_NOTES r = true ->
  Py.index HI t = Some i -> Py.index PLATE t = Some j -> i < j ->
  exists k,
    first_occurrence IMPORTANT_NOTES r k /\
    splice r t =
      Ok (firstn i t ++ HI ++ [nl; nl]
          ++ Py.strip (Py.replace INTRO [] (firstn k r)) ++ [nl; nl]
          ++ skipn j t).
Proof.
  intros Hi Hn Ehi Eplate Hlt.
  destruct (contains_index _ _ Hn) as [k Ek]. apply index_Some in Ek.
  exists k. split; [assumption|].
  destruct (splice_with_markers r t Hi Hn) as (part0 & Hpart & ->).
  rewrite (Hpart k Ek). unfold Py.contains, Py.find. rewrite Ehi, Eplate.
  destruct (Z.gtb_spec (Z.of_nat j) (Z.of_nat i)); [|lia].
  apply index_Some in Ehi as [Hhi _], Eplate as [Hplate _].
  apply occurs_at_bound in Hhi, Hplate.
  rewrite slice_to_nat, slice_from_nat by lia.
  now rewrite <- !app_assoc.
Qed.

(** X11. The splice never raises, and whatever the response is, the
    spliced template still starts with the template up to and including
    the first "Hi!" and still ends with the template from the first
    plate emoji on. *)
Theorem splice_keeps_the_frame r t :
  exists t',
    splice r t = Ok t' /\
    (forall i, first_occurrence HI t i -> exists post, t' = firstn i t ++ HI ++ post) /\
    (forall j, first_occurrence PLATE t j -> exists pre, t' = pre ++ skipn j t).
Proof.
  assert (Hself : (forall i, first_occurrence HI t i ->
                             exists post, t = firstn i t ++ HI ++ post) /\
                  (forall j, first_occurrence PLATE t j ->
                             exists pre, t = pre ++ skipn j t)).
  { split.
    - intros i [Hat _]. eexists. apply (occurs_at_pieces Hat).
    - intros j _. exists (firstn j t). now rewrite firstn_skipn. }
  destruct (Py.contains INTRO r) eqn:Hi;
    [|exists t; split; [unfold splice; now rewrite Hi | exact Hself]].
  destruct (Py.contains IMPORTANT_NOTES r) eqn:Hn;
    [|exists t; split; [unfold splice; now rewrite Hi, Hn | exact Hself]].
  destruct (splice_with_markers r t Hi Hn) as (part0 & _ & ->).
  destruct (Py.contains HI t); [|exists t; split; [reflexivity | exact Hself]].
  destruct (Py.find PLATE t >? Py.find HI t)%Z;
    [|exists t; split; [reflexivity | exact Hself]].
  eexists. split; [reflexivity|]. split.
  - intros i Hhi. rewrite (find_first Hhi).
    rewrite slice_to_nat by (pose proof (occurs_at_bound (proj1 Hhi)); lia).
    eexists. rewrite <- !app_assoc. reflexivity.
  - intros j Hplate. rewrite (find_first Hplate).
    rewrite slice_from_nat by (pose proof (occurs_at_bound (proj1 Hplate)); lia).
    eexists. rewrite app_assoc. reflexivity.
Qed.

(** X12. The notes never reach the template: two responses that agree
    up to their first "IMPORTANT_NOTES:" give the same spliced
    template. *)
Theorem notes_are_not_spliced r r' t k :
  first_occurrence IMPORTANT_NOTES r k ->
  first_occurrence IMPORTANT_NOTES r' k ->
  firstn k r = firstn k r' ->
  occurs INTRO r -> occurs INTRO r' ->
  splice r t = splice r' t.
Proof.
  intros Hk Hk' Heq Hi Hi'. apply contains_iff in Hi, Hi'.
  assert (Hn : Py.contains IMPORTANT_NOTES r = true)
    by (apply contains_iff; exists k; apply Hk).
  assert (Hn' : Py.contains IMPORTANT_NOTES r' = true)
    by (apply contains_iff; exists k; apply Hk').
  destruct (splice_with_markers r t Hi Hn) as (p0 & Hp0 & ->).
  destruct (splice_with_markers r' t Hi' Hn') as (p1 & Hp1 & ->).
  now rewrite (Hp0 k Hk), (Hp1 k Hk'), Heq.
Qed.

(** X13. Both built-in templates carry "Hi!" in front of the plate
    emoji, so on an unedited built-in template every response with both
    markers has its intro put between the greeting and the important
    section. *)
Theorem builtin_templates_take_the_intro name r :
  occurs INTRO r -> occurs IMPORTANT_NOTES r ->
  exists i j k,
    first_occurrence HI (TEMPLATES name) i /\
    first_occurrence PLATE (TEMPLATES name) j /\
    i < j /\
    first_occurrence IMPORTANT_NOTES r k /\
    splice r (TEMPLATES name) =
      Ok (firstn i (TEMPLATES name) ++ HI ++ [nl; nl]
          ++ Py.strip (Py.replace INTRO [] (firstn k r)) ++ [nl; nl]
          ++ skipn j (TEMPLATES name)).
Proof.
  intros Hi Hn. apply contains_iff in Hi, Hn.
  assert (Hidx : exists i j, Py.index HI (TEMPLATES name) = Some i /\
                             Py.index PLATE (TEMPLATES name) = Some j /\ i < j).
  { destruct name.
    - exists 44, 192. repeat split; [vm_compute; reflexivity .. | lia].
    - exists 36, 184. repeat split; [vm_compute; reflexivity .. | lia]. }
  destruct Hidx as (i & j & Ehi & Eplate & Hlt).
  destruct (splice_at_index r (TEMPLATES name) Hi Hn Ehi Eplate Hlt) as (k & Hk & Hs).
  exists i, j, k. split; [now apply index_Some|]. split; [now apply index_Some|].
  split; [assumption|]. split; assumption.
Qed.

End SpliceFrame.

Lemma notes_are_not_spliced_witness :
  splice scenario_response scenario_template
  = splice other_notes_response scenario_template.
Proof.
  refine (@notes_are_not_spliced scenario_response other_notes_response
            scenario_template 21 _ _ _ _ _).
  - apply index_Some. reflexivity.
  - apply index_Some. reflexivity.
  - reflexivity.
  - apply contains_iff. reflexivity.
  - apply contains_iff. reflexivity.
Defined.

Lemma builtin_templates_take_the_intro_witness :
  exists i j k,
    first_occurrence HI (TEMPLATES GenericTask) i /\
    first_occurrence PLATE (TEMPLATES GenericTask) j /\
    i < j /\
    first_occurrence IMPORTANT_NOTES scenario_response k /\
    splice scenario_response (TEMPLATES GenericTask) =
      Ok (firstn i (TEMPLATES GenericTask) ++ HI ++ [nl; nl]
          ++ Py.strip (Py.replace INTRO [] (firstn k scenario_response)) ++ [nl; nl]
          ++ skipn j (TEMPLATES GenericTask)).
Proof.
  apply builtin_templates_take_the_intro; apply contains_iff; reflexivity.
Defined.

(** ** More on the generate handler *)
Section GenerateOutcomes.

Variable requests_post : str -> str -> str -> http_reply.

Implicit Types f : form.
Implicit Types links : list link.

Lemma generate_not_no_template f links :
  template_text f <> [] ->
  generate requests_post f links <> Ok (Rejected NoTemplate).
Proof.
  intros Ht. unfold generate. apply truthy_iff in Ht. rewrite Ht. simpl negb. cbv iota.
  destruct links as [|l links]; [discriminate|].
  destruct (use_ai f && negb (truthy (api_key f))); [discriminate|].
  destruct (use_ai f && negb (truthy (ai_instructions f))); [discriminate|].
  destruct (customize requests_post f) as [[t ai]|e]; cbn [bind]; [|discriminate].
  destruct (create_hyperlinked_docx t (links_dict_of (l :: links))) as [doc|];
    cbn [bind]; [|discriminate].
  destruct (save doc); cbn [bind]; discriminate.
Qed.

(** X14. With the AI box unticked, or with input that validation
    refuses, the outcome is the same whatever the service would
    answer. *)
Theorem no_request_without_ai (other_post : str -> str -> str -> http_reply) f links :
  use_ai f = false \/ invalid f links ->
  generate requests_post f links = generate other_post f links.
Proof.
  intros H. unfold generate, customize.
  destruct (truthy (template_text f)) eqn:Ht; [|reflexivity]. simpl negb. cbv iota.
  destruct links as [|l links]; [reflexivity|].
  destruct (use_ai f) eqn:Hai; [|reflexivity]. simpl andb.
  destruct (truthy (api_key f)) eqn:Hk; [|reflexivity]. simpl negb. cbv iota.
  destruct (truthy (ai_instructions f)) eqn:Hi; [|reflexivity].
  exfalso. apply truthy_iff in Ht, Hk, Hi.
  destruct H as [H | [H | [H | [[_ H] | [_ H]]]]]; congruence.
Qed.

(** X15. A completion that is the empty string is handled like a
    failed call: the original template goes to the builder, and what
    it returns is saved and reported with a failed customization. *)
Theorem empty_completion_counts_as_failure f links :
  template_text f <> [] ->
  links <> [] ->
  use_ai f = true ->
  api_key f <> [] ->
  ai_instructions f <> [] ->
  requests_post (api_key f) (MODELS (model_choice f))
    (prompt_of (template_text f) (ai_instructions f)) = Completion [] ->
  generate requests_post f links =
    (doc <- create_hyperlinked_docx (template_text f) (links_dict_of links) ;;
     doc_io <- save doc ;;
     Ok (Generated doc AiFailed)).
Proof.
  intros Ht Hl Hai Hk Hi Hreply.
  rewrite generate_valid by (try assumption; now intros _).
  unfold customize, generate_ai_content, call_openrouter.
  now rewrite Hai, Hreply.
Qed.

(** X16. A non-empty completion that lacks one of the two markers, or
    a template without "Hi!", leaves the template as it is: the
    customization is reported as done, and the original template goes
    to the builder, whose document is saved. *)
Theorem completion_without_markers_changes_nothing f links r :
  template_text f <> [] ->
  links <> [] ->
  use_ai f = true ->
  api_key f <> [] ->
  ai_instructions f <> [] ->
  requests_post (api_key f) (MODELS (model_choice f))
    (prompt_of (template_text f) (ai_instructions f)) = Completion r ->
  r <> [] ->
  ~ occurs INTRO r \/ ~ occurs IMPORTANT_NOTES r \/ ~ occurs HI (template_text f) ->
  generate requests_post f links =
    (doc <- create_hyperlinked_docx (template_text f) (links_dict_of links) ;;
     doc_io <- save doc ;;
     Ok (Generated doc (AiCustomized r))).
Proof.
  intros Ht Hl Hai Hk Hi Hreply Hr Hskip.
  rewrite generate_valid by (try assumption; now intros _).
  unfold customize, generate_ai_content, call_openrouter.
  rewrite Hai, Hreply. apply truthy_iff in Hr. rewrite Hr.
  now rewrite (splice_without_markers Hskip).
Qed.

(** X17. Validation reports the first check that fails, in the order
    template, links, key, instructions: an empty template is reported
    even when the table is empty too, and so on down the chain. *)
Theorem validation_reports_first_failure f links :
  (template_text f = [] ->
   generate requests_post f links = Ok (Rejected NoTemplate)) /\
  (template_text f <> [] -> links = [] ->
   generate requests_post f links = Ok (Rejected NoLinks)) /\
  (template_text f <> [] -> links <> [] -> use_ai f = true -> api_key f = [] ->
   generate requests_post f links = Ok (Rejected NoApiKey)) /\
  (template_text f <> [] -> links <> [] -> use_ai f = true -> api_key f <> [] ->
   ai_instructions f = [] ->
   generate requests_post f links = Ok (Rejected NoInstructions)).
Proof.
  unfold generate. repeat split.
  - intros ->. reflexivity.
  - intros Ht ->. apply truthy_iff in Ht. now rewrite Ht.
  - intros Ht Hl -> ->. apply truthy_iff in Ht. rewrite Ht.
    destruct links; [congruence | reflexivity].
  - intros Ht Hl -> Hk ->. apply truthy_iff in Ht, Hk. rewrite Ht, Hk.
    destruct links; [congruence | reflexivity].
Qed.

(** X18. At the widgets, generate answers "no template" exactly when
    "Select..." is chosen, or the text area was emptied, or "Custom" is
    chosen and nothing was typed; a built-in template left as it is
    never counts as missing. *)
Theorem no_template_at_the_widgets (w : widgets) links :
  generate requests_post (form_of w) links = Ok (Rejected NoTemplate) <->
  w_template_option w = SelectPlaceholder \/
  w_template_typed w = Some [] \/
  (w_template_option w = Custom /\ w_template_typed w = None).
Proof.
  assert (Hempty : template_text (form_of w) = [] ->
                   generate requests_post (form_of w) links = Ok (Rejected NoTemplate)).
  { intros H. unfold generate. now rewrite H. }
  assert (Hbuiltin : forall name, TEMPLATES name <> []).
  { intros [] H; vm_compute in H; discriminate. }
  split.
  - intros Hgen.
    destruct (w_template_option w) as [|name|] eqn:Hopt; [now left | |].
    + destruct (w_template_typed w) as [[|x s]|] eqn:Htyped; [right; now left | |];
        exfalso; revert Hgen; apply generate_not_no_template; simpl;
        rewrite Hopt, Htyped; simpl; [discriminate | apply Hbuiltin].
    + destruct (w_template_typed w) as [[|x s]|] eqn:Htyped;
        [right; now left | | right; right; now split].
      exfalso. revert Hgen. apply generate_not_no_template. simpl.
      rewrite Hopt, Htyped. discriminate.
  - intros [H | [H | [H1 H2]]]; apply Hempty; simpl.
    + now rewrite H.
    + rewrite H. now destruct (w_template_option w).
    + now rewrite H1, H2.
Qed.

End GenerateOutcomes.

Lemma no_request_without_ai_witness :
  generate helpful scenario_form_no_ai scenario_links
  = generate offline scenario_form_no_ai scenario_links.
Proof.
  apply no_request_without_ai. left. reflexivity.
Defined.

Lemma empty_completion_counts_as_failure_witness :
  generate mute scenario_form scenario_links = Ok (Generated scenario_document AiFailed).
Proof.
  refine (@empty_completion_counts_as_failure mute scenario_form scenario_links
            _ _ _ _ _ _).
  - discriminate.
  - discriminate.
  - reflexivity.
  - discriminate.
  - discriminate.
  - reflexivity.
Defined.

Lemma completion_without_markers_changes_nothing_witness :
  generate chatty scenario_form scenario_links
  = Ok (Generated scenario_document (AiCustomized (lit "Sure, here is your text."))).
Proof.
  refine (@completion_without_markers_changes_nothing chatty scenario_form scenario_links
            (lit "Sure, here is your text.") _ _ _ _ _ _ _ _).
  - discriminate.
  - discriminate.
  - reflexivity.
  - discriminate.
  - discriminate.
  - reflexivity.
  - discriminate.
  - left. apply contains_false_iff. reflexivity.
Defined.

(** ** Generating without AI *)
Section GenerateWithoutAi.

Variable requests_post : str -> str -> str -> http_reply.

(** X19. With the AI box unticked a template and one link are enough
    to reach the builder: neither key nor instructions are asked for,
    and what the builder makes of the template as it stands is saved;
    with valid links, and a template and URLs of XML-compatible
    characters, that is a document. *)
Theorem plain_generation_needs_no_key (f : form) (links : list link) :
  use_ai f = false ->
  template_text f <> [] ->
  links <> [] ->
  generate requests_post f links =
    (doc <- create_hyperlinked_docx (template_text f) (links_dict_of links) ;;
     doc_io <- save doc ;;
     Ok (Generated doc AiNotUsed)) /\
  (Forall link_ok links -> urls_compatible links ->
   xml_compatible (template_text f) = true ->
   exists doc,
     create_hyperlinked_docx (template_text f) (links_dict_of links) = Ok doc /\
     generate requests_post f links = Ok (Generated doc AiNotUsed)).
Proof.
  intros Hai Ht Hl.
  assert (Hgen : generate requests_post f links =
                 (doc <- create_hyperlinked_docx (template_text f) (links_dict_of links) ;;
                  doc_io <- save doc ;;
                  Ok (Generated doc AiNotUsed))).
  { rewrite generate_valid by (try assumption; congruence).
    unfold customize. now rewrite Hai. }
  split; [exact Hgen|]. intros Hinv Hurls Hx.
  destruct (@builder_total (template_text f) _ (links_dict_keys Hinv) Hx) as [doc Hdoc].
  exists doc. split; [assumption|].
  rewrite Hgen, Hdoc. cbn [bind]. now rewrite (save_ok _ Hdoc Hurls).
Qed.

End GenerateWithoutAi.

Lemma plain_generation_needs_no_key_witness :
  generate offline scenario_form_no_ai scenario_links
  = Ok (Generated scenario_document AiNotUsed).
Proof.
  refine (proj1 (@plain_generation_needs_no_key offline scenario_form_no_ai
                   scenario_links _ _ _)).
  - reflexivity.
  - discriminate.
  - discriminate.
Defined.
